(** * Activation bootstrap of the React Native extension (rn-extension.ts)

    A shallow embedding of [src/extension/rn-extension.ts].  The extension
    code is a handful of functions that start promise chains against
    external collaborators (file system helper, TypeScript configuration
    helper, settings helper, the editor's command registry and
    notification UI).  The functions become values of a small task type
    whose constructors are the things the code can do; an event loop with
    an explicit schedule runs them and records every collaborator call
    in a trace. *)

From Stdlib Require Import Ascii String List Bool Arith Lia.
From stdpp Require Import base strings gmap list.
Import ListNotations.
Local Open Scope string_scope.
Local Open Scope list_scope.

(** ** JavaScript values *)

(** The values that flow through the promise callbacks of the file:
    [undefined], booleans (the applicability predicate, [exists]) and
    strings (the button picked in a notification, environment values). *)
Inductive Value : Type :=
| VUndefined
| VBool (b : bool)
| VString (s : string).

(** JavaScript truthiness: [undefined], [false] and the empty string are
    falsy. *)
Definition truthy (v : Value) : bool :=
  match v with
  | VUndefined => false
  | VBool b => b
  | VString s => negb (String.eqb s EmptyString)
  end.

(** Strict equality [===] on the values above. *)
Definition strict_eq (a b : Value) : bool :=
  match a, b with
  | VUndefined, VUndefined => true
  | VBool x, VBool y => Bool.eqb x y
  | VString x, VString y => String.eqb x y
  | _, _ => false
  end.

(** [process.env.NAME] is a string when the variable is present and
    [undefined] otherwise. *)
Definition env_value (o : option string) : Value :=
  match o with
  | Some s => VString s
  | None => VUndefined
  end.

(** An [Error] object; the code only ever reads [err.message]. *)
Record JsError : Type := { message : string }.

(** How a promise settles. *)
Inductive Outcome : Type :=
| Fulfilled (v : Value)
| Rejected (e : JsError).

Definition fulfilled (o : Outcome) : bool :=
  match o with Fulfilled _ => true | Rejected _ => false end.

(** ** Text helpers *)

Definition nl : string := String "010"%char EmptyString.
Definition dq : string := String "034"%char EmptyString.

Definition hex_digit (n : nat) : ascii :=
  ascii_of_nat (if Nat.ltb n 10 then 48 + n else 87 + n)%nat.

(** [JSON.stringify] on a string, character by character: the quote and
    the backslash are escaped, the control characters below U+0020 get
    their short escape or a [\u00XX] escape, everything else is copied. *)
Definition json_escape (a : ascii) : string :=
  let n := nat_of_ascii a in
  if Nat.eqb n 34 then "\" +:+ dq
  else if Nat.eqb n 92 then "\\"
  else if Nat.eqb n 8 then "\b"
  else if Nat.eqb n 12 then "\f"
  else if Nat.eqb n 10 then "\n"
  else if Nat.eqb n 13 then "\r"
  else if Nat.eqb n 9 then "\t"
  else if Nat.ltb n 32 then
    "\u00" +:+ String (hex_digit (Nat.div n 16)) (String (hex_digit (Nat.modulo n 16)) EmptyString)
  else String a EmptyString.

Fixpoint json_escape_all (s : string) : string :=
  match s with
  | EmptyString => EmptyString
  | String a rest => json_escape a +:+ json_escape_all rest
  end.

Definition JSON_stringify (s : string) : string :=
  dq +:+ json_escape_all s +:+ dq.

(** ** Collaborators *)

(** The four methods of [CommandPaletteHandler] the commands delegate to. *)
Inductive HandlerMethod : Type :=
| runAndroid
| runIos
| startPackager
| stopPackager.

(** What is pushed on [context.subscriptions]. *)
Inductive Disposable : Type :=
| CommandRegistration (name : string)
| ReactDirManagerInstance.

(** Collaborator calls that return a promise the code waits on. *)
Inductive AsyncOp : Type :=
| IsReactNativeProject (root : string)
| EnsureDirectory (dir : string)
| EnsureFileWithContents (file contents : string)
| ShowInformationMessage (text : string) (items : list string)
| AllowJs (flag : bool)
| AddExcludePaths (paths : list string)
| CopyRecursive (source dest : string)
| Exists (path : string)
| TypescriptTsdk (path : string).

Global Instance AsyncOp_eq_dec : EqDecision AsyncOp.
Proof. solve_decision. Defined.

(** Collaborator calls whose result the code does not look at. *)
Inductive SyncAct : Type :=
| NewReactNativeProjectHelper (root : string)
| NewCommandPaletteHandler (root : string)
| HandlerCall (root : string) (m : HandlerMethod)
| PushSubscription (d : Disposable)
| NewReactDirManager
| ShowErrorMessage (text : string)
| ShowInformationNotice (text : string)
| ChildProcessExec (command : string)
| UncaughtException (e : JsError).

(** ** Tasks

    A task is a piece of JavaScript control flow.  [Await] starts an
    asynchronous collaborator call and suspends the chain until the
    promise settles; [Defer] hands the rest of the chain to a later turn
    of the event loop (promise callbacks never run in the turn that
    settles the promise); [Spawn] starts a promise chain nobody waits
    for and carries on with the rest of the caller. *)
Inductive Task : Type :=
| Ret (v : Value)
| Throw (e : JsError)
| Act (s : SyncAct) (k : Task)
| Register (name : string) (callback : Task) (k : Task)
| GetEnv (name : string) (k : option string -> Task)
| OsType (k : string -> Task)
| Await (op : AsyncOp) (k : Outcome -> Task)
| Defer (k : Task)
| Spawn (chain : Task) (k : Task).

Fixpoint bind (t : Task) (f : Value -> Task) : Task :=
  match t with
  | Ret v => f v
  | Throw e => Throw e
  | Act s k => Act s (bind k f)
  | Register n cb k => Register n cb (bind k f)
  | GetEnv n k => GetEnv n (fun v => bind (k v) f)
  | OsType k => OsType (fun s => bind (k s) f)
  | Await op k => Await op (fun o => bind (k o) f)
  | Defer k => Defer (bind k f)
  | Spawn c k => Spawn c (bind k f)
  end.

Fixpoint try_ (t : Task) (h : JsError -> Task) : Task :=
  match t with
  | Ret v => Ret v
  | Throw e => h e
  | Act s k => Act s (try_ k h)
  | Register n cb k => Register n cb (try_ k h)
  | GetEnv n k => GetEnv n (fun v => try_ (k v) h)
  | OsType k => OsType (fun s => try_ (k s) h)
  | Await op k => Await op (fun o => try_ (k o) h)
  | Defer k => Defer (try_ k h)
  | Spawn c k => Spawn c (try_ k h)
  end.

Notation "'let*' x ':=' t 'in' k" := (bind t (fun x => k))
  (at level 10, x name, t at level 100, k at level 200).
Notation "t ';;' k" := (bind t (fun _ => k))
  (at level 100, k at level 200, right associativity).

(** A collaborator call seen as a promise. *)
Definition await (op : AsyncOp) : Task :=
  Await op (fun o => match o with Fulfilled v => Ret v | Rejected e => Throw e end).

(** [p.then(f)]: [f] runs in a later turn with the fulfilment value; a
    rejection skips [f]. *)
Definition then_ (p : Task) (f : Value -> Task) : Task :=
  bind p (fun v => Defer (f v)).

(** [p.catch(h)]. *)
Definition catch_ (p : Task) (h : JsError -> Task) : Task :=
  try_ p (fun e => Defer (h e)).

(** [p.done()]: a rejection that reaches the end of the chain is thrown
    again in a later turn, where nothing catches it. *)
Definition done_ (p : Task) : Task :=
  try_ p (fun e => Defer (Act (UncaughtException e) (Ret VUndefined))).

(** [process.env.NAME] and [a || b]. *)
Definition getenv (name : string) : Task :=
  GetEnv name (fun v => Ret (env_value v)).

Definition js_or (a b : Task) : Task :=
  let* x := a in if truthy x then Ret x else b.

(** ** The world the collaborators act on *)

(** The TypeScript configuration document: the two fields the helper
    edits and everything else. *)
Record TsConfig : Type := {
  allowJs : option bool;
  exclude : list string;
  otherFields : gmap string string
}.

Definition in_list (s : string) (l : list string) : bool :=
  existsb (String.eqb s) l.

(** Modelled from the spec: TsConfigHelper.allowJs, which is not in the
    sources at hand; it sets the allow-JavaScript flag and leaves the
    rest of the document alone. *)
Definition tsconfig_allowJs (b : bool) (doc : TsConfig) : TsConfig :=
  {| allowJs := Some b; exclude := exclude doc; otherFields := otherFields doc |}.

(** Modelled from the spec: TsConfigHelper.addExcludePaths, which is not
    in the sources at hand; each path is appended to the exclusion list
    unless it is there already, keeping the order of the existing
    entries. *)
Definition add_missing (l : list string) (p : string) : list string :=
  if in_list p l then l else l ++ [p].

Definition tsconfig_addExcludePaths (paths : list string) (doc : TsConfig) : TsConfig :=
  {| allowJs := allowJs doc;
     exclude := fold_left add_missing paths (exclude doc);
     otherFields := otherFields doc |}.

Record World : Type := {
  env : gmap string string;       (* process.env *)
  platform : string;              (* what os.type() answers *)
  dirs : gset string;             (* directories known to exist *)
  files : gmap string string;     (* files written one by one, with their contents *)
  mirrors : gset (string * string);  (* (source, destination): trees mirrored *)
  tsconfig : TsConfig;
  tsdk : option string            (* the typescript.tsdk setting *)
}.

(** Modelled from the spec: what the collaborators that are not in the
    sources at hand leave behind once their promise is fulfilled.
    FileSystem.ensureDirectory creates the directory if it is absent,
    FileSystem.ensureFileWithContents writes or overwrites the file,
    FileSystem.copyRecursive mirrors the source tree into the
    destination, which is there afterwards (what the bundled trees hold
    is not known here, so a mirrored tree is recorded as a whole and its
    files are not listed among the files written one by one),
    SettingsHelper.typescriptTsdk records the toolchain path.  A rejected
    call leaves the world as it was. *)
Definition effect (op : AsyncOp) (o : Outcome) (w : World) : World :=
  match o with
  | Rejected _ => w
  | Fulfilled _ =>
    match op with
    | EnsureDirectory d =>
      {| env := env w; platform := platform w; dirs := {[ d ]} ∪ dirs w;
         files := files w; mirrors := mirrors w;
         tsconfig := tsconfig w; tsdk := tsdk w |}
    | EnsureFileWithContents f c =>
      {| env := env w; platform := platform w; dirs := dirs w;
         files := <[ f := c ]> (files w); mirrors := mirrors w;
         tsconfig := tsconfig w; tsdk := tsdk w |}
    | CopyRecursive source dest =>
      {| env := env w; platform := platform w; dirs := {[ dest ]} ∪ dirs w;
         files := files w; mirrors := {[ (source, dest) ]} ∪ mirrors w;
         tsconfig := tsconfig w; tsdk := tsdk w |}
    | AllowJs b =>
      {| env := env w; platform := platform w; dirs := dirs w;
         files := files w; mirrors := mirrors w;
         tsconfig := tsconfig_allowJs b (tsconfig w); tsdk := tsdk w |}
    | AddExcludePaths ps =>
      {| env := env w; platform := platform w; dirs := dirs w;
         files := files w; mirrors := mirrors w;
         tsconfig := tsconfig_addExcludePaths ps (tsconfig w);
         tsdk := tsdk w |}
    | TypescriptTsdk p =>
      {| env := env w; platform := platform w; dirs := dirs w;
         files := files w; mirrors := mirrors w;
         tsconfig := tsconfig w; tsdk := Some p |}
    | _ => w
    end
  end.

Definition set_env (name : string) (v : option string) (w : World) : World :=
  {| env := match v with Some s => <[ name := s ]> (env w) | None => delete name (env w) end;
     platform := platform w; dirs := dirs w; files := files w; mirrors := mirrors w;
     tsconfig := tsconfig w; tsdk := tsdk w |}.

(** ** The event loop *)

Abbreviation ChainId := nat (only parsing).

Inductive Event : Type :=
| Did (c : ChainId) (s : SyncAct)
| Registered (c : ChainId) (name : string)
| Began (c : ChainId) (op : AsyncOp)
| Settled (c : ChainId) (op : AsyncOp) (o : Outcome)
| Returned (c : ChainId) (o : Outcome).

(** A suspended chain: waiting for a collaborator, or ready for its next
    turn. *)
Inductive Entry : Type :=
| Waiting (op : AsyncOp) (k : Outcome -> Task)
| Ready (t : Task).

Record State : Type := {
  world : World;
  registry : list (string * Task);   (* the editor's command registry *)
  trace : list Event;                (* oldest event first *)
  pool : list (ChainId * Entry);
  nextChain : ChainId
}.

Definition emit (e : Event) (st : State) : State :=
  {| world := world st; registry := registry st; trace := trace st ++ [e];
     pool := pool st; nextChain := nextChain st |}.

Definition enqueue (c : ChainId) (en : Entry) (st : State) : State :=
  {| world := world st; registry := registry st; trace := trace st;
     pool := pool st ++ [(c, en)]; nextChain := nextChain st |}.

Definition add_command (name : string) (cb : Task) (st : State) : State :=
  {| world := world st; registry := registry st ++ [(name, cb)]; trace := trace st;
     pool := pool st; nextChain := nextChain st |}.

Definition fresh_chain (st : State) : State :=
  {| world := world st; registry := registry st; trace := trace st;
     pool := pool st; nextChain := S (nextChain st) |}.

Definition drop_entry (i : nat) (st : State) : State :=
  {| world := world st; registry := registry st; trace := trace st;
     pool := take i (pool st) ++ drop (S i) (pool st); nextChain := nextChain st |}.

Definition with_world (f : World -> World) (st : State) : State :=
  {| world := f (world st); registry := registry st; trace := trace st;
     pool := pool st; nextChain := nextChain st |}.

(** One synchronous run of a task on chain [c], up to the point where it
    returns, throws, or suspends. *)
Fixpoint exec (c : ChainId) (t : Task) (st : State) : State :=
  match t with
  | Ret v => emit (Returned c (Fulfilled v)) st
  | Throw e => emit (Returned c (Rejected e)) st
  | Act s k => exec c k (emit (Did c s) st)
  | Register n cb k => exec c k (emit (Registered c n) (add_command n cb st))
  | GetEnv n k => exec c (k (env (world st) !! n)) st
  | OsType k => exec c (k (platform (world st))) st
  | Await op k => enqueue c (Waiting op k) (emit (Began c op) st)
  | Defer k => enqueue c (Ready k) st
  | Spawn child k => exec c k (exec (nextChain st) child (fresh_chain st))
  end.

(** What can happen between two turns. *)
Inductive Choice : Type :=
| Complete (i : nat) (o : Outcome)   (* the call of pool entry [i] settles *)
| Turn (i : nat)                     (* the callback of pool entry [i] runs *)
| SetEnv (name : string) (v : option string)  (* process.env is changed by other code *)
| Invoke (name : string).            (* the user runs a registered command *)

Fixpoint find_command (name : string) (reg : list (string * Task)) : option Task :=
  match reg with
  | [] => None
  | (n, cb) :: rest => if String.eqb n name then Some cb else find_command name rest
  end.

Definition step (ch : Choice) (st : State) : State :=
  match ch with
  | Complete i o =>
    match pool st !! i with
    | Some (c, Waiting op k) =>
      exec c (k o) (emit (Settled c op o) (with_world (effect op o) (drop_entry i st)))
    | _ => st
    end
  | Turn i =>
    match pool st !! i with
    | Some (c, Ready t) => exec c t (drop_entry i st)
    | _ => st
    end
  | SetEnv n v => with_world (set_env n v) st
  | Invoke n =>
    match find_command n (registry st) with
    | Some cb => exec (nextChain st) cb (fresh_chain st)
    | None => st
    end
  end.

Definition run (sched : list Choice) (st : State) : State :=
  fold_left (fun s ch => step ch s) sched st.

(** The state in which a function is called: nothing registered, nothing
    pending, chain 0 is the caller. *)
Definition boot (w : World) : State :=
  {| world := w; registry := []; trace := []; pool := []; nextChain := 1 |}.

Definition call (t : Task) (w : World) : State := exec 0 t (boot w).

(** ** Static properties of tasks

    A node predicate looks at one thing a task can do; [task_all Q t]
    says every node of [t] satisfies [Q], whatever the collaborators,
    the environment and the platform answer. *)
Inductive Node : Type :=
| NAct (s : SyncAct)
| NRegister (name : string)
| NGetEnv (name : string)
| NAwait (op : AsyncOp).

Fixpoint task_all (Q : Node -> Prop) (t : Task) : Prop :=
  match t with
  | Ret _ => True
  | Throw _ => True
  | Act s k => Q (NAct s) /\ task_all Q k
  | Register n cb k => Q (NRegister n) /\ task_all Q cb /\ task_all Q k
  | GetEnv n k => Q (NGetEnv n) /\ forall v, task_all Q (k v)
  | OsType k => forall s, task_all Q (k s)
  | Await op k => Q (NAwait op) /\ forall o, task_all Q (k o)
  | Defer k => task_all Q k
  | Spawn ch k => task_all Q ch /\ task_all Q k
  end.

Definition entry_all (Q : Node -> Prop) (en : Entry) : Prop :=
  match en with
  | Waiting op k => Q (NAwait op) /\ forall o, task_all Q (k o)
  | Ready t => task_all Q t
  end.

(** Every suspended chain and every registered command keeps to [Q]. *)
Definition state_all (Q : Node -> Prop) (st : State) : Prop :=
  Forall (fun ce => entry_all Q (snd ce)) (pool st) /\
  Forall (fun nc => task_all Q (snd nc)) (registry st).

Definition event_ok (Q : Node -> Prop) (e : Event) : Prop :=
  match e with
  | Did _ s => Q (NAct s)
  | Registered _ n => Q (NRegister n)
  | Began _ op => Q (NAwait op)
  | Settled _ op _ => Q (NAwait op)
  | Returned _ _ => True
  end.

(** Nodes other than a command registration, and nodes other than a read
    of [process.env]. *)
Definition no_register (n : Node) : Prop :=
  match n with NRegister _ => False | _ => True end.

Definition no_getenv (n : Node) : Prop :=
  match n with NGetEnv _ => False | _ => True end.

(** Two states that differ at most in [process.env]. *)
Definition same_but_env (a b : State) : Prop :=
  platform (world a) = platform (world b) /\
  dirs (world a) = dirs (world b) /\
  files (world a) = files (world b) /\
  mirrors (world a) = mirrors (world b) /\
  tsconfig (world a) = tsconfig (world b) /\
  tsdk (world a) = tsdk (world b) /\
  registry a = registry b /\
  trace a = trace b /\
  pool a = pool b /\
  nextChain a = nextChain b.

(** Two worlds that agree on everything except, possibly, the values of
    [HOME] and [USERPROFILE]. *)
Definition differ_only_in_home (w1 w2 : World) : Prop :=
  (forall n : string, n <> "HOME" -> n <> "USERPROFILE" -> env w1 !! n = env w2 !! n) /\
  platform w1 = platform w2 /\
  dirs w1 = dirs w2 /\
  files w1 = files w2 /\
  mirrors w1 = mirrors w2 /\
  tsconfig w1 = tsconfig w2 /\
  tsdk w1 = tsdk w2.

(** ** Order within a chain

    [isY] marks the operation a chain has to wait for and [isX] the
    operation that depends on it.  The status of a chain says whether it
    has started [Y] and whether [Y] has succeeded; [allowed] says in
    which status [X] may be started. *)
Inductive Status : Type := Fresh | Pending | Done.

Definition chain_of (e : Event) : ChainId :=
  match e with
  | Did c _ | Registered c _ | Began c _ | Settled c _ _ | Returned c _ => c
  end.

Section Precedence.

Variables isX isY : AsyncOp -> bool.
Variable allowed : Status -> bool.

Definition began (s : Status) (op : AsyncOp) : Status :=
  if isY op then match s with Fresh => Pending | _ => s end else s.

Definition settled (s : Status) (op : AsyncOp) (o : Outcome) : Status :=
  if isY op && fulfilled o then Done else s.

Definition observe (c : ChainId) (s : Status) (e : Event) : Status :=
  match e with
  | Began c' op => if Nat.eqb c' c then began s op else s
  | Settled c' op o => if Nat.eqb c' c then settled s op o else s
  | _ => s
  end.

(** The status of chain [c] after the events of [tr]. *)
Definition status_of (c : ChainId) (tr : list Event) : Status :=
  fold_left (observe c) tr Fresh.

(** A task that, run on a chain in status [s], starts [X] only in an
    allowed status, whatever its collaborators answer. *)
Fixpoint guarded (s : Status) (t : Task) : Prop :=
  match t with
  | Ret _ => True
  | Throw _ => True
  | Act _ k => guarded s k
  | Register _ cb k => guarded Fresh cb /\ guarded s k
  | GetEnv _ k => forall v, guarded s (k v)
  | OsType k => forall x, guarded s (k x)
  | Await op k =>
    (isX op = true -> allowed s = true) /\
    forall o, guarded (settled (began s op) op o) (k o)
  | Defer k => guarded s k
  | Spawn ch k => guarded Fresh ch /\ guarded s k
  end.

Definition entry_guarded (s : Status) (en : Entry) : Prop :=
  match en with
  | Waiting op k =>
    (isX op = true -> allowed s = true) /\
    forall o, guarded (settled s op o) (k o)
  | Ready t => guarded s t
  end.

Definition event_allowed (before : list Event) (e : Event) : Prop :=
  match e with
  | Began c op => isX op = true -> allowed (status_of c before) = true
  | Settled c op _ => isX op = true -> allowed (status_of c before) = true
  | _ => True
  end.

(** Every start and every completion of [X] in the trace happens in an
    allowed status of its chain. *)
Definition respects (tr : list Event) : Prop :=
  forall pre e post, tr = pre ++ e :: post -> event_allowed pre e.

Record Good (st : State) : Prop := {
  pool_bound : Forall (fun ce => fst ce < nextChain st) (pool st);
  trace_bound : Forall (fun e => chain_of e < nextChain st) (trace st);
  pool_nodup : NoDup (map fst (pool st));
  pool_guarded :
    Forall (fun ce => entry_guarded (status_of (fst ce) (trace st)) (snd ce)) (pool st);
  registry_guarded : Forall (fun nc => guarded Fresh (snd nc)) (registry st);
  trace_respects : respects (trace st)
}.

End Precedence.

(** ** Gates

    [unlock] marks the settlements that open a gate (the applicability
    check answering yes, the user picking a button, a step failing) and
    [needs] the nodes that may run only once the gate is open.  The gate
    is global: it is open as soon as some chain has seen an unlocking
    settlement. *)
Definition node_of (e : Event) : option Node :=
  match e with
  | Did _ s => Some (NAct s)
  | Registered _ n => Some (NRegister n)
  | Began _ op => Some (NAwait op)
  | Settled _ _ _ => None
  | Returned _ _ => None
  end.

Section Gate.

Variable unlock : AsyncOp -> Outcome -> bool.
Variable needs : Node -> bool.

Definition unlocks (e : Event) : bool :=
  match e with
  | Settled _ op o => unlock op o
  | _ => false
  end.

Definition opened (tr : list Event) : bool := existsb unlocks tr.

(** A task that, started with the gate in state [g], runs a node that
    needs the gate only when it is open, whatever its collaborators
    answer. *)
Fixpoint gated (g : bool) (t : Task) : Prop :=
  match t with
  | Ret _ => True
  | Throw _ => True
  | Act s k => (needs (NAct s) = true -> g = true) /\ gated g k
  | Register n cb k =>
    (needs (NRegister n) = true -> g = true) /\ gated g cb /\ gated g k
  | GetEnv _ k => forall v, gated g (k v)
  | OsType k => forall x, gated g (k x)
  | Await op k =>
    (needs (NAwait op) = true -> g = true) /\
    forall o, gated (g || unlock op o) (k o)
  | Defer k => gated g k
  | Spawn ch k => gated g ch /\ gated g k
  end.

Definition entry_gated (g : bool) (en : Entry) : Prop :=
  match en with
  | Waiting op k => forall o, gated (g || unlock op o) (k o)
  | Ready t => gated g t
  end.

Definition event_gated (before : list Event) (e : Event) : Prop :=
  match node_of e with
  | Some n => needs n = true -> opened before = true
  | None => True
  end.

(** Every event of a node that needs the gate comes after an unlocking
    settlement. *)
Definition gate_kept (tr : list Event) : Prop :=
  forall pre e post, tr = pre ++ e :: post -> event_gated pre e.

Definition gate_inv (st : State) : Prop :=
  Forall (fun ce => entry_gated (opened (trace st)) (snd ce)) (pool st) /\
  Forall (fun nc => gated (opened (trace st)) (snd nc)) (registry st) /\
  gate_kept (trace st).

End Gate.

(** ** Budgets

    [cost] says which nodes are counted.  [within n t] says that [t],
    the chains it starts and the callbacks it leaves behind run at most
    [n] counted nodes, whatever the collaborators answer; a registered
    command can be invoked any number of times and has to be free. *)
Section Budget.

Variable cost : Node -> nat.

Fixpoint within (n : nat) (t : Task) : Prop :=
  match t with
  | Ret _ => True
  | Throw _ => True
  | Act s k => cost (NAct s) <= n /\ within (n - cost (NAct s)) k
  | Register x cb k =>
    cost (NRegister x) <= n /\ within 0 cb /\ within (n - cost (NRegister x)) k
  | GetEnv _ k => forall v, within n (k v)
  | OsType k => forall x, within n (k x)
  | Await op k =>
    cost (NAwait op) <= n /\ forall o, within (n - cost (NAwait op)) (k o)
  | Defer k => within n k
  | Spawn ch k => exists a, a <= n /\ within a ch /\ within (n - a) k
  end.

Definition entry_within (n : nat) (en : Entry) : Prop :=
  match en with
  | Waiting _ k => forall o, within n (k o)
  | Ready t => within n t
  end.

Definition event_cost (e : Event) : nat :=
  match node_of e with
  | Some n => cost n
  | None => 0
  end.

(** What a trace has spent. *)
Definition spent (tr : list Event) : nat := sum_list_with event_cost tr.

(** The pending chains have budgets that, with what has been spent,
    stay within [total]. *)
Definition budget_inv (total : nat) (st : State) : Prop :=
  exists budgets : list nat,
    Forall2 (fun b ce => entry_within b (snd ce)) budgets (pool st) /\
    Forall (fun nc => within 0 (snd nc)) (registry st) /\
    spent (trace st) + sum_list budgets <= total.

End Budget.

(** ** Lines of a text *)

(** The number of line breaks in a text. *)
Fixpoint newlines (s : string) : nat :=
  match s with
  | EmptyString => 0
  | String a rest => (if Ascii.eqb a "010"%char then 1 else 0) + newlines rest
  end.

(** ** A POSIX instance of Node's [path] module

    The extension calls [path.join] and [path.resolve]; the development
    takes both as parameters.  For worked examples it instantiates them
    with the functions below, which agree with Node on absolute,
    slash-separated segments: the segments are glued with [/] and the
    [.] and [..] components are resolved. *)

Fixpoint split_slash (acc : string) (s : string) : list string :=
  match s with
  | EmptyString => [acc]
  | String a rest =>
    if Ascii.eqb a "/"%char then acc :: split_slash EmptyString rest
    else split_slash (acc +:+ String a EmptyString) rest
  end.

Definition push_component (stack : list string) (comp : string) : list string :=
  if String.eqb comp EmptyString then stack
  else if String.eqb comp "." then stack
  else if String.eqb comp ".." then removelast stack
  else stack ++ [comp].

Definition posix_normalize (s : string) : string :=
  "/" +:+ String.concat "/" (fold_left push_component (split_slash EmptyString s) []).

Definition posix_join (segments : list string) : string :=
  posix_normalize (String.concat "/" segments).

(** ** Sample installations

    Worlds and schedules for the worked examples: a workspace [/proj] on
    a Mac with an empty environment, the same with the opt-in flag set,
    and two worlds that differ in the home directory only. *)

Definition sample_world : World :=
  {| env := ∅; platform := "Darwin"; dirs := ∅; files := ∅; mirrors := ∅;
     tsconfig := {| allowJs := None; exclude := ["a"]; otherFields := ∅ |};
     tsdk := None |}.

Definition flagged_world : World :=
  {| env := {[ "VSCODE_TSJS" := "1" ]}; platform := "Linux"; dirs := ∅; files := ∅; mirrors := ∅;
     tsconfig := {| allowJs := None; exclude := []; otherFields := ∅ |};
     tsdk := None |}.

Definition alice_world : World :=
  {| env := {[ "HOME" := "/home/alice" ]}; platform := "Linux"; dirs := ∅; files := ∅; mirrors := ∅;
     tsconfig := {| allowJs := None; exclude := []; otherFields := ∅ |};
     tsdk := None |}.

Definition bob_world : World :=
  {| env := <[ "USERPROFILE" := "/mnt/c/Users/bob" ]> {[ "HOME" := "/home/bob" ]};
     platform := "Linux"; dirs := ∅; files := ∅; mirrors := ∅;
     tsconfig := {| allowJs := None; exclude := []; otherFields := ∅ |};
     tsdk := None |}.

(** The user accepts the prompt after other code has set the flag. *)
Definition late_accept : list Choice :=
  [ SetEnv "VSCODE_TSJS" (Some "1"); Complete 0 (Fulfilled (VString "Yes")) ].

(** A first installation on which every step succeeds. *)
Definition fresh_install : list Choice :=
  [ Complete 0 (Fulfilled (VBool false)); Turn 0;
    Complete 0 (Fulfilled VUndefined); Turn 0;
    Complete 0 (Fulfilled VUndefined) ].

(** The directory is there, the write fails. *)
Definition write_fails : list Choice :=
  [ Complete 0 (Fulfilled VUndefined); Turn 0;
    Complete 0 (Rejected {| message := "EACCES: permission denied" |}); Turn 0 ].

(** ** The extension *)

(** [name] and [version] of the extension's own package.json. *)
Record ExtensionIdentity : Type := { name : string; version : string }.

Definition sample_pkg : ExtensionIdentity :=
  {| name := "vscode-react-native"; version := "0.1.0" |}.

Section Extension.

(** [path.join] and [path.resolve] of Node. *)
Variable path_join : list string -> string.
Variable path_resolve : list string -> string.
(** [__dirname], [require.resolve("../debugger/launcher")] and
    [require("../../package.json")]. *)
Variable dirname : string.
Variable launcherPath : string.
Variable pkg : ExtensionIdentity.
(** [vscode.workspace.rootPath]. *)
Variable rootPath : string.

Definition debuggerEntryCode : string :=
  "// This file is automatically generated by " +:+ name pkg +:+ "@" +:+ version pkg +:+ nl +:+
  "// Please do not modify it manually. All changes will be lost." +:+ nl +:+
  "try {" +:+ nl +:+
  "    var path = require(" +:+ dq +:+ "path" +:+ dq +:+ ");" +:+ nl +:+
  "    var Launcher = require(" +:+ JSON_stringify launcherPath +:+ ").Launcher;" +:+ nl +:+
  "    new Launcher(path.resolve(__dirname, " +:+ dq +:+ ".." +:+ dq +:+ ")).launch();" +:+ nl +:+
  "} catch (e) {" +:+ nl +:+
  "    throw new Error(" +:+ dq +:+ "Unable to launch application. Try deleting .vscode/launchReactNative.js and restarting vscode." +:+ dq +:+ ");" +:+ nl +:+
  "}".

Definition vscodeFolder : string := path_join [rootPath; ".vscode"].
Definition debugStub : string := path_join [vscodeFolder; "launchReactNative.js"].

(** The chain of [setupReactNativeDebugger]:
    [ensureDirectory(..).then(() => ensureFileWithContents(..)).catch(..)]. *)
Definition debuggerChain : Task :=
  catch_
    (then_ (await (EnsureDirectory vscodeFolder))
           (fun _ => await (EnsureFileWithContents debugStub debuggerEntryCode)))
    (fun err => Act (ShowErrorMessage (message err)) (Ret VUndefined)).

Definition setupReactNativeDebugger : Task :=
  Spawn debuggerChain (Ret VUndefined).

Definition typeScriptNextSource : string :=
  path_resolve [dirname; ".."; ".."; "TypescriptNext"].
Definition typeScriptNextDest : string := path_resolve [rootPath; ".vscode"].
Definition typeScriptNextLibPath : string :=
  path_join [typeScriptNextDest; "typescript"; "lib"].

(** The chain [installTypescriptNext] returns:
    [exists(..).then(exists => ..copyRecursive..).then(() => typescriptTsdk(..))]. *)
Definition installChain : Task :=
  then_
    (then_ (await (Exists typeScriptNextLibPath))
           (fun exists_ =>
              if negb (truthy exists_)
              then await (CopyRecursive typeScriptNextSource typeScriptNextDest)
              else Ret VUndefined))
    (fun _ => await (TypescriptTsdk typeScriptNextLibPath)).

Definition installTypescriptNext : Task :=
  let* p := js_or (getenv "HOME") (getenv "USERPROFILE") in
  installChain.

Definition restartNotice : string :=
  "Salsa intellisense for VS Code was turned on. Restart to enable it.".

Definition enableSalsa : Task :=
  let* flag := getenv "VSCODE_TSJS" in
  if negb (truthy flag) then
    let* setSalsaEnvVariable :=
      OsType (fun t1 =>
        if String.eqb t1 "Darwin" then Ret (VString "launchctl setenv VSCODE_TSJS 1")
        else OsType (fun t2 =>
          if String.eqb t2 "Windows" then Ret (VString "setx VSCODE_TSJS 1")
          else Ret (VString EmptyString))) in
    Act (ChildProcessExec
           (match setSalsaEnvVariable with VString s => s | _ => EmptyString end))
      (Spawn
         (done_ (then_ installTypescriptNext
                       (fun _ => Act (ShowInformationNotice restartNotice) (Ret VUndefined))))
         (Ret VUndefined))
  else Ret VUndefined.

Definition salsaPrompt : AsyncOp :=
  ShowInformationMessage "Turn on Salsa intellisense for VS Code?" ["Yes"].

Definition reactTypingsSource : string :=
  path_resolve [dirname; ".."; ".."; "ReactTypings"].
Definition reactTypingsDest : string :=
  path_resolve [rootPath; ".vscode"; "typings"].

(** The three chains [setupReactNativeIntellisense] starts. *)
Definition promptChain : Task :=
  then_ (await salsaPrompt)
        (fun result =>
           if strict_eq result (VString "Yes") then enableSalsa else Ret VUndefined).

Definition tsconfigChain : Task :=
  done_ (then_ (await (AllowJs true))
               (fun _ => await (AddExcludePaths ["node_modules"]))).

Definition typingsChain : Task :=
  done_ (then_ (await (CopyRecursive reactTypingsSource reactTypingsDest))
               (fun _ => installTypescriptNext)).

Definition setupReactNativeIntellisense : Task :=
  (let* flag := getenv "VSCODE_TSJS" in
   if negb (truthy flag) then Spawn promptChain (Ret VUndefined)
   else Ret VUndefined) ;;
  Spawn tsconfigChain
    (Spawn typingsChain (Ret VUndefined)).

(** [() => commandPaletteHandler.m()] for the handler built from the
    workspace root. *)
Definition trigger (m : HandlerMethod) : Task :=
  Act (HandlerCall rootPath m) (Ret VUndefined).

Definition registerCommand (command : string) (m : HandlerMethod) (k : Task) : Task :=
  Register command (trigger m)
    (Act (PushSubscription (CommandRegistration command)) k).

Definition detectionChain : Task :=
  then_ (await (IsReactNativeProject rootPath))
        (fun isRNProject =>
           if truthy isRNProject then
             setupReactNativeDebugger ;;
             setupReactNativeIntellisense ;;
             Act NewReactDirManager
               (Act (PushSubscription ReactDirManagerInstance) (Ret VUndefined))
           else Ret VUndefined).

Definition activate : Task :=
  Act (NewReactNativeProjectHelper rootPath)
    (Spawn detectionChain
      (Act (NewCommandPaletteHandler rootPath)
        (registerCommand "reactNative.runAndroid" runAndroid
          (registerCommand "reactNative.runIos" runIos
            (registerCommand "reactNative.startPackager" startPackager
              (registerCommand "reactNative.stopPackager" stopPackager
                (Ret VUndefined))))))).

(** The command table [activate] is expected to leave in the
    registry. *)
Definition four_commands : list (string * Task) :=
  [ ("reactNative.runAndroid", trigger runAndroid);
    ("reactNative.runIos", trigger runIos);
    ("reactNative.startPackager", trigger startPackager);
    ("reactNative.stopPackager", trigger stopPackager) ].

(** The test [process.env.VSCODE_TSJS] of the source: the variable is
    present and its value is not the empty string. *)
Definition flag_set (w : World) : bool :=
  truthy (env_value (env w !! "VSCODE_TSJS")).

Definition command_table : list (string * HandlerMethod) :=
  [ ("reactNative.runAndroid", runAndroid);
    ("reactNative.runIos", runIos);
    ("reactNative.startPackager", startPackager);
    ("reactNative.stopPackager", stopPackager) ].

(** The command line [enableSalsa] hands to the child process, as a
    function of what [os.type()] answers. *)
Definition salsa_command (os_type : string) : string :=
  if String.eqb os_type "Darwin" then "launchctl setenv VSCODE_TSJS 1"
  else if String.eqb os_type "Windows" then "setx VSCODE_TSJS 1"
  else EmptyString.

(** What [os.type()] answers on a Windows host (the name of the
    kernel, as [uname] would give it). *)
Definition windows_os_type : string := "Windows_NT".

(** The header of the stub, in the words of the specification. *)
Definition stub_header : string :=
  "// This file is automatically generated by " +:+ name pkg +:+ "@" +:+ version pkg +:+ nl +:+
  "// Please do not modify it manually. All changes will be lost.".

(** An event that is not a file write, or is the write of the
    generated contents to the stub path. *)
Definition writes_stub (e : Event) : Prop :=
  match e with
  | Began _ (EnsureFileWithContents file contents) =>
    file = debugStub /\ contents = debuggerEntryCode
  | _ => True
  end.

(** The schedule on which both steps of the debugger chain succeed. *)
Definition provision_ok : list Choice :=
  [ Complete 0 (Fulfilled VUndefined); Turn 0; Complete 0 (Fulfilled VUndefined) ].






(** Only a change of [process.env] reaches the world the function was
    called in; what the collaborators leave behind is applied when
    their step is replayed. *)
Definition world_after (ch : Choice) (w : World) : World :=
  match ch with
  | SetEnv n v => set_env n v w
  | _ => w
  end.



(** How far an installation has come. *)
Inductive InstallStage : Type :=
| Probing
| ProbeFailed (e : JsError)
| Probed (present : Value)
| Present (present : Value)
| Copying (present : Value)
| CopyFailed (present : Value) (e : JsError)
| Copied (present v : Value)
| RecordingPresent (present : Value)
| RecordingCopied (present v : Value)
| FinishedPresent (present : Value) (record : Outcome)
| FinishedCopied (present v : Value) (record : Outcome).

Definition install_schedule (ph : InstallStage) : list Choice :=
  match ph with
  | Probing => []
  | ProbeFailed e => [Complete 0 (Rejected e)]
  | Probed p => [Complete 0 (Fulfilled p)]
  | Present p => [Complete 0 (Fulfilled p); Turn 0]
  | Copying p => [Complete 0 (Fulfilled p); Turn 0]
  | CopyFailed p e => [Complete 0 (Fulfilled p); Turn 0; Complete 0 (Rejected e)]
  | Copied p v => [Complete 0 (Fulfilled p); Turn 0; Complete 0 (Fulfilled v)]
  | RecordingPresent p => [Complete 0 (Fulfilled p); Turn 0; Turn 0]
  | RecordingCopied p v =>
    [Complete 0 (Fulfilled p); Turn 0; Complete 0 (Fulfilled v); Turn 0]
  | FinishedPresent p r => [Complete 0 (Fulfilled p); Turn 0; Turn 0; Complete 0 r]
  | FinishedCopied p v r =>
    [Complete 0 (Fulfilled p); Turn 0; Complete 0 (Fulfilled v); Turn 0; Complete 0 r]
  end.

(** The stages after the probe go with one answer of the probe each. *)
Definition install_stage_ok (ph : InstallStage) : Prop :=
  match ph with
  | Probing | ProbeFailed _ | Probed _ => True
  | Present p | RecordingPresent p | FinishedPresent p _ => truthy p = true
  | Copying p | CopyFailed p _ | Copied p _ | RecordingCopied p _
  | FinishedCopied p _ _ => truthy p = false
  end.

Definition install_next (ph : InstallStage) (ch : Choice) : InstallStage :=
  match ph, ch with
  | Probing, Complete 0 (Fulfilled p) => Probed p
  | Probing, Complete 0 (Rejected e) => ProbeFailed e
  | Probed p, Turn 0 => if truthy p then Present p else Copying p
  | Present p, Turn 0 => RecordingPresent p
  | Copying p, Complete 0 (Fulfilled v) => Copied p v
  | Copying p, Complete 0 (Rejected e) => CopyFailed p e
  | Copied p v, Turn 0 => RecordingCopied p v
  | RecordingPresent p, Complete 0 r => FinishedPresent p r
  | RecordingCopied p v, Complete 0 r => FinishedCopied p v r
  | _, _ => ph
  end.


(** The steps of what the specification calls Chain B. *)
Definition configFlagStep : AsyncOp := AllowJs true.
Definition configExcludeStep : AsyncOp := AddExcludePaths ["node_modules"].
Definition typingsMirror : AsyncOp := CopyRecursive reactTypingsSource reactTypingsDest.
Definition installProbe : AsyncOp := Exists typeScriptNextLibPath.

Definition is_op (x op : AsyncOp) : bool := bool_decide (op = x).
Definition only_done (s : Status) : bool :=
  match s with Done => true | _ => false end.
Definition not_pending (s : Status) : bool :=
  match s with Pending => false | _ => true end.

Definition is_settled (e : Event) : Prop :=
  match e with Settled _ _ _ => True | _ => False end.



(** The exclusion list is edited only after the flag has been set, on
    the same chain. *)
Definition exclude_waits_for_flag (tr : list Event) : Prop :=
  forall pre c post, tr = pre ++ Began c configExcludeStep :: post ->
    exists v, In (Settled c configFlagStep (Fulfilled v)) pre.


(** The whole mutation of the TypeScript configuration: the flag, then
    the exclusion. *)
Definition config_mutation (doc : TsConfig) : TsConfig :=
  tsconfig_addExcludePaths ["node_modules"] (tsconfig_allowJs true doc).

Definition mutation_completed (tr : list Event) : Prop :=
  exists c v, In (Settled c configExcludeStep (Fulfilled v)) tr.

(** One of the two steps of the mutation has failed. *)
Definition config_step_rejected (tr : list Event) : Prop :=
  exists c op e, (op = configFlagStep \/ op = configExcludeStep) /\
                 In (Settled c op (Rejected e)) tr.

(** The flag step has been started. *)
Definition mutation_begun (tr : list Event) : Prop :=
  exists c, In (Began c configFlagStep) tr.

(** The turn of the configuration chain that follows the flag step:
    the callback handed to [then], with [done] at the end of the
    chain. *)
Definition excludeTurn : Task := done_ (await configExcludeStep).

(** Where the configuration chain stands: waiting for the flag step,
    ready for the callback, waiting for the exclusion step, through
    with both, or stopped by a failed step. *)
Definition flag_pending (st : State) : Prop :=
  exists i c k, pool st !! i = Some (c, Waiting configFlagStep k) /\
                forall v, k (Fulfilled v) = Defer excludeTurn.

Definition exclude_ready (st : State) : Prop :=
  exists i c, pool st !! i = Some (c, Ready excludeTurn).

Definition exclude_pending (st : State) : Prop :=
  exists i c k, pool st !! i = Some (c, Waiting configExcludeStep k).

Definition mutation_stage (st : State) : Prop :=
  flag_pending st \/ exclude_ready st \/ exclude_pending st \/
  mutation_completed (trace st) \/ config_step_rejected (trace st).

Definition flag_written (e : Event) : bool :=
  match e with
  | Settled _ (AllowJs _) (Fulfilled _) => true
  | _ => false
  end.

Definition exclusion_written (e : Event) : bool :=
  match e with
  | Settled _ (AddExcludePaths _) (Fulfilled _) => true
  | _ => false
  end.

(** The configuration document as the settled steps of a trace leave
    it. *)
Definition config_after (tr : list Event) (doc : TsConfig) : TsConfig :=
  let doc1 := if existsb flag_written tr then tsconfig_allowJs true doc else doc in
  if existsb exclusion_written tr
  then tsconfig_addExcludePaths ["node_modules"] doc1 else doc1.

Definition config_ops (n : Node) : Prop :=
  match n with
  | NAwait (AllowJs b) => b = true
  | NAwait (AddExcludePaths ps) => ps = ["node_modules"]
  | _ => True
  end.

(** Nodes other than the confirmation prompt. *)
Definition no_prompt (n : Node) : Prop := n <> NAwait salsaPrompt.

(** Nodes other than a file write, or the write of the generated
    contents to the stub path. *)
Definition stub_write_node (n : Node) : Prop :=
  match n with
  | NAwait (EnsureFileWithContents file contents) =>
    file = debugStub /\ contents = debuggerEntryCode
  | _ => True
  end.

(** The configuration document is what the settled steps have made of
    the document the function started with. *)
Definition config_inv (doc : TsConfig) (st : State) : Prop :=
  state_all config_ops st /\ tsconfig (world st) = config_after (trace st) doc.

(** ** Activation as a whole *)

(** What [activate] does for every folder: the two helper objects, the
    applicability check, the four registrations with their
    subscriptions, and whatever a command does when the user runs it. *)
Definition unconditional (n : Node) : bool :=
  match n with
  | NAct (NewReactNativeProjectHelper _) => true
  | NAct (NewCommandPaletteHandler _) => true
  | NAct (HandlerCall _ _) => true
  | NAct (PushSubscription (CommandRegistration _)) => true
  | NRegister _ => true
  | NAwait (IsReactNativeProject _) => true
  | _ => false
  end.

(** Everything else is meant for React Native projects only. *)
Definition project_only (n : Node) : bool := negb (unconditional n).

(** The applicability check answered yes. *)
Definition project_detected (op : AsyncOp) (o : Outcome) : bool :=
  match op, o with
  | IsReactNativeProject _, Fulfilled v => truthy v
  | _, _ => false
  end.

Definition applicable (o : Outcome) : bool :=
  match o with
  | Fulfilled v => truthy v
  | Rejected _ => false
  end.

(** The user picked [Yes] in an information message. *)
Definition accepted (op : AsyncOp) (o : Outcome) : bool :=
  match op, o with
  | ShowInformationMessage _ _, Fulfilled v => strict_eq v (VString "Yes")
  | _, _ => false
  end.

(** What [enableSalsa] does on the user's behalf. *)
Definition opt_in_only (n : Node) : bool :=
  match n with
  | NAct (ChildProcessExec _) => true
  | NAct (ShowInformationNotice _) => true
  | _ => false
  end.

(** The two steps of the debugger chain, and the steps of the
    intellisense chains. *)
Definition stub_step (op : AsyncOp) : bool :=
  match op with
  | EnsureDirectory _ | EnsureFileWithContents _ _ => true
  | _ => false
  end.

Definition intellisense_step (op : AsyncOp) : bool :=
  match op with
  | AllowJs _ | AddExcludePaths _ | CopyRecursive _ _ | Exists _ | TypescriptTsdk _ => true
  | _ => false
  end.

Definition rejected_in (steps : AsyncOp -> bool) (op : AsyncOp) (o : Outcome) : bool :=
  steps op && negb (fulfilled o).

Definition is_error_message (n : Node) : bool :=
  match n with NAct (ShowErrorMessage _) => true | _ => false end.

Definition is_uncaught (n : Node) : bool :=
  match n with NAct (UncaughtException _) => true | _ => false end.

(** The operations [activate] can start are the ones of the source,
    with the arguments of the source. *)
Definition known_ops (n : Node) : Prop :=
  match n with
  | NAwait (IsReactNativeProject root) => root = rootPath
  | NAwait (ShowInformationMessage text items) =>
    ShowInformationMessage text items = salsaPrompt
  | NAwait (EnsureDirectory dir) => dir = vscodeFolder
  | NAwait (EnsureFileWithContents file contents) =>
    file = debugStub /\ contents = debuggerEntryCode
  | NAwait (Exists p) => p = typeScriptNextLibPath
  | NAwait (TypescriptTsdk p) => p = typeScriptNextLibPath
  | _ => True
  end.

(** Classes of operations, for the order within a chain. *)
Definition is_directory_step (op : AsyncOp) : bool :=
  match op with EnsureDirectory _ => true | _ => false end.
Definition is_stub_write (op : AsyncOp) : bool :=
  match op with EnsureFileWithContents _ _ => true | _ => false end.
Definition is_flag_step (op : AsyncOp) : bool :=
  match op with AllowJs _ => true | _ => false end.
Definition is_exclude_step (op : AsyncOp) : bool :=
  match op with AddExcludePaths _ => true | _ => false end.
Definition is_probe (op : AsyncOp) : bool :=
  match op with Exists _ => true | _ => false end.
Definition is_settings_write (op : AsyncOp) : bool :=
  match op with TypescriptTsdk _ => true | _ => false end.

(** On its chain, every [X] begins after a [Y] has been fulfilled. *)
Definition begins_after (isX isY : AsyncOp -> bool) (tr : list Event) : Prop :=
  forall pre c op post, tr = pre ++ Began c op :: post -> isX op = true ->
    exists op' v, isY op' = true /\ In (Settled c op' (Fulfilled v)) pre.

(** Every event of a node in [needs] comes after an event with [P]. *)
Definition only_after (needs : Node -> bool) (P : Event -> Prop) (tr : list Event) : Prop :=
  forall pre e post n, tr = pre ++ e :: post -> node_of e = Some n -> needs n = true ->
    exists x, In x pre /\ P x.

(** The applicability check of the workspace root was fulfilled with a
    truthy value. *)
Definition detection_succeeded (e : Event) : Prop :=
  match e with
  | Settled _ (IsReactNativeProject root) (Fulfilled v) =>
    root = rootPath /\ truthy v = true
  | _ => False
  end.

(** The confirmation prompt was answered with [Yes]. *)
Definition prompt_accepted (e : Event) : Prop :=
  match e with
  | Settled _ op (Fulfilled v) => op = salsaPrompt /\ v = VString "Yes"
  | _ => False
  end.

(** One of the [steps] was rejected. *)
Definition step_failed (steps : AsyncOp -> bool) (e : Event) : Prop :=
  match e with
  | Settled _ op (Rejected _) => steps op = true
  | _ => False
  end.

(** ** How often things happen *)

(** The kinds of things an activation does a bounded number of times.
    What a command does is not among them: the user can run a command
    as often as they like. *)
Inductive Kind : Type :=
| KDetection        (* isReactNativeProject *)
| KDirectory        (* ensureDirectory *)
| KStubWrite        (* ensureFileWithContents *)
| KPrompt           (* showInformationMessage with a button *)
| KFlagEdit         (* TsConfigHelper.allowJs *)
| KExcludeEdit      (* TsConfigHelper.addExcludePaths *)
| KCopy             (* copyRecursive *)
| KProbe            (* exists *)
| KSettingsWrite    (* SettingsHelper.typescriptTsdk *)
| KErrorMessage     (* showErrorMessage *)
| KNotice           (* showInformationMessage without a button *)
| KChildProcess     (* childProcess.exec *)
| KUncaught         (* an exception rethrown by done() *)
| KDirManager       (* new ReactDirManager() *)
| KRegistration.    (* registerCommand *)

Definition counts (k : Kind) (n : Node) : nat :=
  match k, n with
  | KDetection, NAwait (IsReactNativeProject _) => 1
  | KDirectory, NAwait (EnsureDirectory _) => 1
  | KStubWrite, NAwait (EnsureFileWithContents _ _) => 1
  | KPrompt, NAwait (ShowInformationMessage _ _) => 1
  | KFlagEdit, NAwait (AllowJs _) => 1
  | KExcludeEdit, NAwait (AddExcludePaths _) => 1
  | KCopy, NAwait (CopyRecursive _ _) => 1
  | KProbe, NAwait (Exists _) => 1
  | KSettingsWrite, NAwait (TypescriptTsdk _) => 1
  | KErrorMessage, NAct (ShowErrorMessage _) => 1
  | KNotice, NAct (ShowInformationNotice _) => 1
  | KChildProcess, NAct (ChildProcessExec _) => 1
  | KUncaught, NAct (UncaughtException _) => 1
  | KDirManager, NAct NewReactDirManager => 1
  | KRegistration, NRegister _ => 1
  | _, _ => 0
  end.

(** How often one activation can do a thing of each kind. *)
Definition activation_limit (k : Kind) : nat :=
  match k with
  | KCopy => 3            (* the typings, and the toolchain once per installation *)
  | KProbe => 2           (* one installation per chain that installs *)
  | KSettingsWrite => 2
  | KUncaught => 3        (* one per chain that ends in done() *)
  | KRegistration => 4
  | _ => 1
  end.

(** The number of events of kind [k] in a trace. *)
Definition occurrences (k : Kind) (tr : list Event) : nat := spent (counts k) tr.

(** ** The life of an activation *)

(** Nodes that are a command's call of the handler, and nodes other
    than the applicability check. *)
Definition quiet (n : Node) : Prop :=
  match n with NAct (HandlerCall _ _) => True | _ => False end.

Definition no_detection (n : Node) : Prop :=
  match n with NAwait (IsReactNativeProject _) => False | _ => True end.

(** An event of what [activate] does for every folder. *)
Definition idle_event (e : Event) : Prop :=
  event_ok (fun n => unconditional n = true) e.

Definition detection_result (e : Event) : option Outcome :=
  match e with
  | Settled _ (IsReactNativeProject _) o => Some o
  | _ => None
  end.

(** The check is pending; the check has settled and the folder is not
    a React Native project (or the check failed); the check has
    answered yes. *)
Definition detecting (w : World) (st : State) : Prop :=
  pool st = pool (call activate w) /\
  registry st = four_commands /\
  Forall idle_event (trace st) /\
  Forall (fun e => detection_result e = None) (trace st).

Definition declined (st : State) : Prop :=
  state_all quiet st /\ Forall idle_event (trace st).

Definition detected (st : State) : Prop :=
  state_all no_detection st /\
  Forall (fun e => forall o, detection_result e = Some o -> applicable o = true)
         (trace st).

Definition lifecycle (w : World) (st : State) : Prop :=
  detecting w st \/ declined st \/ detected st.

(** ** The course of [enableSalsa] *)

(** What [enableSalsa] goes on with once it has found the flag unset
    and has picked the command line: the child process, then the
    installation with the restart notice behind it, ended by
    [done()]. *)
Definition salsaBody (command : string) : Task :=
  Act (ChildProcessExec command)
    (Spawn
       (done_ (then_ installChain
                     (fun _ => Act (ShowInformationNotice restartNotice) (Ret VUndefined))))
       (Ret VUndefined)).

Definition uncaught_part (e : JsError) : list Event :=
  [ Did 1 (UncaughtException e); Returned 1 (Fulfilled VUndefined) ].

Definition salsa_record_part (record : Outcome) : list Event :=
  [ Began 1 (TypescriptTsdk typeScriptNextLibPath);
    Settled 1 (TypescriptTsdk typeScriptNextLibPath) record ] ++
  match record with
  | Rejected e => uncaught_part e
  | Fulfilled _ =>
    [ Did 1 (ShowInformationNotice restartNotice); Returned 1 (Fulfilled VUndefined) ]
  end.

(** The complete course of [enableSalsa] with the flag unset, given
    the command line and how the probe, the copy and the settings
    write settle. *)
Definition salsa_script (command : string) (probe copy record : Outcome) : list Event :=
  [ Did 0 (ChildProcessExec command);
    Began 1 (Exists typeScriptNextLibPath);
    Returned 0 (Fulfilled VUndefined);
    Settled 1 (Exists typeScriptNextLibPath) probe ] ++
  match probe with
  | Rejected e => uncaught_part e
  | Fulfilled present =>
    if truthy present then salsa_record_part record
    else
      [ Began 1 (CopyRecursive typeScriptNextSource typeScriptNextDest);
        Settled 1 (CopyRecursive typeScriptNextSource typeScriptNextDest) copy ] ++
      match copy with
      | Rejected e => uncaught_part e
      | Fulfilled _ => salsa_record_part record
      end
  end.

(** The installation inside [enableSalsa] goes through the stages of
    an installation; once it has settled, one more turn shows the
    notice or rethrows the error. *)
Inductive SalsaStage : Type :=
| Installing (ph : InstallStage)
| Closed (ph : InstallStage).

Definition settled_stage (ph : InstallStage) : bool :=
  match ph with
  | ProbeFailed _ | CopyFailed _ _ | FinishedPresent _ _ | FinishedCopied _ _ _ => true
  | _ => false
  end.

Definition salsa_schedule (sp : SalsaStage) : list Choice :=
  match sp with
  | Installing ph => install_schedule ph
  | Closed ph => install_schedule ph ++ [Turn 0]
  end.

Definition salsa_stage_ok (sp : SalsaStage) : Prop :=
  match sp with
  | Installing ph => install_stage_ok ph
  | Closed ph => install_stage_ok ph /\ settled_stage ph = true
  end.

Definition salsa_next (sp : SalsaStage) (ch : Choice) : SalsaStage :=
  match sp with
  | Installing ph =>
    match ch with
    | Turn 0 => if settled_stage ph then Closed ph else Installing (install_next ph ch)
    | _ => Installing (install_next ph ch)
    end
  | Closed ph => Closed ph
  end.

Definition salsa_state (command : string) (sp : SalsaStage) (w : World) : State :=
  run (salsa_schedule sp) (exec 0 (salsaBody command) (boot w)).

(** ** Two installations at once *)

Definition toolchainCopy : AsyncOp :=
  CopyRecursive typeScriptNextSource typeScriptNextDest.

(** The project is detected, the user accepts the prompt, and the
    installation [enableSalsa] starts gets as far as its copy before
    the typings mirror completes and the typings chain starts an
    installation of its own; both probes find the library absent. *)
Definition overlap_schedule : list Choice :=
  [ Complete 0 (Fulfilled (VBool true)); Turn 0;
    Complete 1 (Fulfilled (VString "Yes")); Turn 3;
    Complete 3 (Fulfilled (VBool false)); Turn 3;
    Complete 2 (Fulfilled VUndefined); Turn 3;
    Complete 3 (Fulfilled (VBool false)); Turn 3 ].

(** Chain [c] is waiting for its copy of the bundled toolchain. *)
Definition copy_in_flight (c : ChainId) (st : State) : Prop :=
  exists k, In (c, Waiting toolchainCopy k) (pool st).

(** What has happened by then. *)
Definition overlap_trace (command : string) : list Event :=
  [ Did 0 (NewReactNativeProjectHelper rootPath);
    Began 1 (IsReactNativeProject rootPath);
    Did 0 (NewCommandPaletteHandler rootPath);
    Registered 0 "reactNative.runAndroid";
    Did 0 (PushSubscription (CommandRegistration "reactNative.runAndroid"));
    Registered 0 "reactNative.runIos";
    Did 0 (PushSubscription (CommandRegistration "reactNative.runIos"));
    Registered 0 "reactNative.startPackager";
    Did 0 (PushSubscription (CommandRegistration "reactNative.startPackager"));
    Registered 0 "reactNative.stopPackager";
    Did 0 (PushSubscription (CommandRegistration "reactNative.stopPackager"));
    Returned 0 (Fulfilled VUndefined);
    Settled 1 (IsReactNativeProject rootPath) (Fulfilled (VBool true));
    Began 2 (EnsureDirectory vscodeFolder);
    Began 3 salsaPrompt;
    Began 4 (AllowJs true);
    Began 5 (CopyRecursive reactTypingsSource reactTypingsDest);
    Did 1 NewReactDirManager;
    Did 1 (PushSubscription ReactDirManagerInstance);
    Returned 1 (Fulfilled VUndefined);
    Settled 3 salsaPrompt (Fulfilled (VString "Yes"));
    Did 3 (ChildProcessExec command);
    Began 6 (Exists typeScriptNextLibPath);
    Returned 3 (Fulfilled VUndefined);
    Settled 6 (Exists typeScriptNextLibPath) (Fulfilled (VBool false));
    Began 6 toolchainCopy;
    Settled 5 (CopyRecursive reactTypingsSource reactTypingsDest) (Fulfilled VUndefined);
    Began 5 (Exists typeScriptNextLibPath);
    Settled 5 (Exists typeScriptNextLibPath) (Fulfilled (VBool false));
    Began 5 toolchainCopy ].

(** ** The directory manager *)

Definition no_manager (n : Node) : Prop :=
  match n with NAct NewReactDirManager => False | _ => True end.

(** No step that is meant for React Native projects has settled. *)
Definition nothing_provisioned (tr : list Event) : Prop :=
  Forall (fun e => match e with
                   | Settled _ op _ => unconditional (NAwait op) = true
                   | _ => True
                   end) tr.

(** Whenever the directory manager is created, no provisioning step
    has settled yet. *)
Definition manager_does_not_wait (tr : list Event) : Prop :=
  forall pre c post, tr = pre ++ Did c NewReactDirManager :: post ->
    nothing_provisioned pre.

(** Before the callback of the applicability check has run: the check
    is pending, or it has been fulfilled and its callback is ready. *)
Definition before_callback (w : World) (st : State) : Prop :=
  (pool st = pool (call activate w) \/
   exists v, pool st = pool (step (Complete 0 (Fulfilled v)) (call activate w))) /\
  registry st = four_commands /\
  Forall idle_event (trace st).

Definition after_callback (st : State) : Prop :=
  state_all no_manager st /\ manager_does_not_wait (trace st).

(** ** What an activation can call at all *)

(** The collaborator calls written in the source, with the arguments
    the source gives them.  The message of an error notification and
    of an uncaught exception comes from the failed step; everything
    else is fixed by the workspace root and the extension's own
    location. *)
Definition source_operations : list AsyncOp :=
  [ IsReactNativeProject rootPath;
    EnsureDirectory vscodeFolder;
    EnsureFileWithContents debugStub debuggerEntryCode;
    salsaPrompt;
    AllowJs true;
    AddExcludePaths ["node_modules"];
    typingsMirror;
    installProbe;
    toolchainCopy;
    TypescriptTsdk typeScriptNextLibPath ].

Definition source_command_lines : list string :=
  [ "launchctl setenv VSCODE_TSJS 1"; "setx VSCODE_TSJS 1"; EmptyString ].

Definition source_calls (n : Node) : Prop :=
  match n with
  | NAwait op => In op source_operations
  | NRegister command => In command (map fst command_table)
  | NAct (NewReactNativeProjectHelper root) => root = rootPath
  | NAct (NewCommandPaletteHandler root) => root = rootPath
  | NAct (HandlerCall root _) => root = rootPath
  | NAct (PushSubscription (CommandRegistration command)) =>
    In command (map fst command_table)
  | NAct (ChildProcessExec command) => In command source_command_lines
  | NAct (ShowInformationNotice text) => text = restartNotice
  | NGetEnv name => In name ["VSCODE_TSJS"; "HOME"; "USERPROFILE"]
  | _ => True
  end.

(** ** What an activation leaves in the workspace *)







(** ** General facts about the event loop *)

Lemma task_all_bind Q t f :
  task_all Q t -> (forall v, task_all Q (f v)) -> task_all Q (bind t f).
Proof.
  intros Ht Hf. induction t; simpl in *; intuition auto.
Qed.

Lemma task_all_try Q t h :
  task_all Q t -> (forall e, task_all Q (h e)) -> task_all Q (try_ t h).
Proof.
  intros Ht Hh. induction t; simpl in *; intuition auto.
Qed.

Lemma task_all_await Q op : Q (NAwait op) -> task_all Q (await op).
Proof. intros H. split; [exact H | intros [v|e]; exact I]. Qed.

Lemma task_all_then Q p f :
  task_all Q p -> (forall v, task_all Q (f v)) -> task_all Q (then_ p f).
Proof. intros Hp Hf. apply task_all_bind; [exact Hp | intros v; apply Hf]. Qed.

Lemma task_all_catch Q p h :
  task_all Q p -> (forall e, task_all Q (h e)) -> task_all Q (catch_ p h).
Proof. intros Hp Hh. apply task_all_try; [exact Hp | intros e; apply Hh]. Qed.

Lemma task_all_done Q p :
  task_all Q p -> (forall e, Q (NAct (UncaughtException e))) -> task_all Q (done_ p).
Proof. intros Hp He. apply task_all_try; [exact Hp | intros e; split; [apply He | exact I]]. Qed.

Lemma task_all_getenv Q n : Q (NGetEnv n) -> task_all Q (getenv n).
Proof. intros H. split; [exact H | intros v; exact I]. Qed.

Lemma task_all_js_or Q a b : task_all Q a -> task_all Q b -> task_all Q (js_or a b).
Proof.
  intros Ha Hb. apply task_all_bind; [exact Ha |].
  intros v. destruct (truthy v); [exact I | exact Hb].
Qed.

Lemma state_all_emit Q e st : state_all Q st -> state_all Q (emit e st).
Proof. intros H. exact H. Qed.

Lemma state_all_enqueue Q c en st :
  entry_all Q en -> state_all Q st -> state_all Q (enqueue c en st).
Proof.
  intros He [Hp Hr]. split; [|exact Hr].
  simpl. apply Forall_app. split; [exact Hp | repeat constructor; exact He].
Qed.

Lemma state_all_drop Q i st : state_all Q st -> state_all Q (drop_entry i st).
Proof.
  intros [Hp Hr]. split; [|exact Hr]. simpl.
  apply Forall_app. split; [apply Forall_take | apply Forall_drop]; exact Hp.
Qed.

Lemma exec_all Q t : forall c st,
  task_all Q t -> state_all Q st -> state_all Q (exec c t st).
Proof.
  induction t as [v|e|s k IH|n cb _ k IH|n k IH|k IH|op k _|k _|ch IHch k IHk];
    intros c st Ht Hst; simpl in *.
  - exact Hst.
  - exact Hst.
  - apply IH; [apply Ht | exact Hst].
  - destruct Ht as (_ & Hcb & Hk). apply IH; [exact Hk |].
    destruct Hst as [Hp Hr]. split; [exact Hp |]. simpl.
    apply Forall_app. split; [exact Hr | repeat constructor; exact Hcb].
  - apply IH; [apply Ht | exact Hst].
  - apply IH; [apply Ht | exact Hst].
  - apply state_all_enqueue; [exact Ht | exact Hst].
  - apply state_all_enqueue; [exact Ht | exact Hst].
  - destruct Ht as [Hch Hk]. apply IHk; [exact Hk |].
    apply IHch; [exact Hch | exact Hst].
Qed.

Lemma find_command_all Q n reg cb :
  Forall (fun nc => task_all Q (snd nc)) reg ->
  find_command n reg = Some cb -> task_all Q cb.
Proof.
  induction reg as [|[m t] reg IH]; simpl; intros HF Hfind; [discriminate|].
  inversion HF as [|? ? Hhd Htl]; subst.
  destruct (String.eqb m n); [inversion Hfind; subst; exact Hhd | apply IH; assumption].
Qed.

Lemma step_all Q ch st : state_all Q st -> state_all Q (step ch st).
Proof.
  intros Hst. destruct ch as [i o|i|n v|n]; simpl.
  - destruct (pool st !! i) as [[c [op k|t]]|] eqn:Hi; try exact Hst.
    assert (He : entry_all Q (Waiting op k)).
    { destruct Hst as [Hp _]. rewrite Forall_forall in Hp.
      apply (Hp (c, Waiting op k)). eapply list_elem_of_lookup_2; exact Hi. }
    apply exec_all; [apply He |]. apply state_all_drop. exact Hst.
  - destruct (pool st !! i) as [[c [op k|t]]|] eqn:Hi; try exact Hst.
    assert (He : entry_all Q (Ready t)).
    { destruct Hst as [Hp _]. rewrite Forall_forall in Hp.
      apply (Hp (c, Ready t)). eapply list_elem_of_lookup_2; exact Hi. }
    apply exec_all; [apply He |]. apply state_all_drop. exact Hst.
  - exact Hst.
  - destruct (find_command n (registry st)) as [cb|] eqn:Hf; [|exact Hst].
    apply exec_all; [|exact Hst].
    eapply find_command_all; [apply Hst | exact Hf].
Qed.

Lemma run_all Q sched : forall st, state_all Q st -> state_all Q (run sched st).
Proof.
  induction sched as [|ch sched IH]; intros st Hst; [exact Hst|].
  apply IH. apply step_all. exact Hst.
Qed.

Lemma task_all_weaken (Q Q' : Node -> Prop) t :
  (forall n, Q n -> Q' n) -> task_all Q t -> task_all Q' t.
Proof.
  intros HQ. induction t; simpl; intuition auto.
Qed.

(** The trace only grows, and what a task adds is what its nodes
    allow. *)
Lemma exec_trace Q t : forall c st,
  task_all Q t ->
  exists new, trace (exec c t st) = trace st ++ new /\ Forall (event_ok Q) new.
Proof.
  induction t as [v|e|s k IH|n cb _ k IH|n k IH|k IH|op k _|k _|ch IHch k IHk];
    intros c st Ht; simpl in *.
  - eexists; split; [reflexivity | repeat constructor].
  - eexists; split; [reflexivity | repeat constructor].
  - destruct Ht as [Hs Hk]. destruct (IH c (emit (Did c s) st) Hk) as (new & -> & Hnew).
    exists (Did c s :: new). split; [simpl; rewrite <- app_assoc; reflexivity |].
    constructor; [exact Hs | exact Hnew].
  - destruct Ht as (Hn & _ & Hk).
    destruct (IH c (emit (Registered c n) (add_command n cb st)) Hk) as (new & -> & Hnew).
    exists (Registered c n :: new). split; [simpl; rewrite <- app_assoc; reflexivity |].
    constructor; [exact Hn | exact Hnew].
  - destruct Ht as [_ Hk]. apply IH, Hk.
  - apply IH, Ht.
  - destruct Ht as [Hop _]. exists [Began c op]. split; [reflexivity |].
    repeat constructor. exact Hop.
  - exists []. split; [simpl; rewrite app_nil_r; reflexivity | constructor].
  - destruct Ht as [Hch Hk].
    destruct (IHch (nextChain st) (fresh_chain st) Hch) as (n1 & E1 & H1).
    destruct (IHk c (exec (nextChain st) ch (fresh_chain st)) Hk) as (n2 & E2 & H2).
    exists (n1 ++ n2). split; [rewrite E2, E1; simpl; rewrite <- app_assoc; reflexivity |].
    apply Forall_app. split; assumption.
Qed.

Lemma lookup_entry_all Q st i c en :
  state_all Q st -> pool st !! i = Some (c, en) -> entry_all Q en.
Proof.
  intros [Hp _] Hi. rewrite Forall_forall in Hp.
  apply (Hp (c, en)). eapply list_elem_of_lookup_2; exact Hi.
Qed.

Lemma step_trace Q ch st :
  state_all Q st ->
  exists new, trace (step ch st) = trace st ++ new /\ Forall (event_ok Q) new.
Proof.
  intros Hst. destruct ch as [i o|i|n v|n]; simpl.
  - destruct (pool st !! i) as [[c [op k|t]]|] eqn:Hi;
      try (exists []; split; [rewrite app_nil_r; reflexivity | constructor]).
    destruct (lookup_entry_all _ _ _ _ _ Hst Hi) as [Hop Hk].
    destruct (exec_trace Q (k o) c
                (emit (Settled c op o) (with_world (effect op o) (drop_entry i st)))
                (Hk o)) as (new & -> & Hnew).
    exists (Settled c op o :: new). split; [simpl; rewrite <- app_assoc; reflexivity |].
    constructor; [exact Hop | exact Hnew].
  - destruct (pool st !! i) as [[c [op k|t]]|] eqn:Hi;
      try (exists []; split; [rewrite app_nil_r; reflexivity | constructor]).
    destruct (exec_trace Q t c (drop_entry i st) (lookup_entry_all _ _ _ _ _ Hst Hi))
      as (new & E & Hnew).
    exists new. split; [exact E | exact Hnew].
  - exists []; split; [simpl; rewrite app_nil_r; reflexivity | constructor].
  - destruct (find_command n (registry st)) as [cb|] eqn:Hf;
      [| exists []; split; [rewrite app_nil_r; reflexivity | constructor]].
    destruct (exec_trace Q cb (nextChain st) (fresh_chain st)
                (find_command_all _ _ _ _ (proj2 Hst) Hf)) as (new & E & Hnew).
    exists new. split; [exact E | exact Hnew].
Qed.

Lemma run_nil st : run [] st = st.
Proof. reflexivity. Qed.

Lemma run_cons ch sched st : run (ch :: sched) st = run sched (step ch st).
Proof. reflexivity. Qed.

Lemma run_app s1 s2 st : run (s1 ++ s2) st = run s2 (run s1 st).
Proof. unfold run. apply fold_left_app. Qed.

Lemma run_trace Q sched : forall st,
  state_all Q st ->
  exists new, trace (run sched st) = trace st ++ new /\ Forall (event_ok Q) new.
Proof.
  induction sched as [|ch sched IH]; intros st Hst.
  - exists []. split; [simpl; rewrite app_nil_r; reflexivity | constructor].
  - destruct (step_trace Q ch st Hst) as (n1 & E1 & H1).
    destruct (IH (step ch st) (step_all Q ch st Hst)) as (n2 & E2 & H2).
    exists (n1 ++ n2). split; [rewrite run_cons, E2, E1, <- app_assoc; reflexivity |].
    apply Forall_app. split; assumption.
Qed.

(** Tasks without a [Register] node leave the command registry alone. *)
Lemma exec_registry t : forall c st,
  task_all no_register t -> registry (exec c t st) = registry st.
Proof.
  induction t as [v|e|s k IH|n cb _ k IH|n k IH|k IH|op k _|k _|ch IHch k IHk];
    intros c st Ht; simpl in *; try reflexivity.
  - rewrite IH; [reflexivity | apply Ht].
  - destruct Ht as [[] _].
  - apply IH, Ht.
  - apply IH, Ht.
  - destruct Ht as [Hch Hk]. rewrite IHk, IHch by assumption. reflexivity.
Qed.

Lemma step_registry ch st :
  state_all no_register st -> registry (step ch st) = registry st.
Proof.
  intros Hst. destruct ch as [i o|i|n v|n]; simpl.
  - destruct (pool st !! i) as [[c [op k|t]]|] eqn:Hi; try reflexivity.
    rewrite exec_registry; [reflexivity |].
    apply (lookup_entry_all _ _ _ _ _ Hst Hi).
  - destruct (pool st !! i) as [[c [op k|t]]|] eqn:Hi; try reflexivity.
    rewrite exec_registry; [reflexivity |].
    apply (lookup_entry_all _ _ _ _ _ Hst Hi).
  - reflexivity.
  - destruct (find_command n (registry st)) as [cb|] eqn:Hf; [|reflexivity].
    rewrite exec_registry; [reflexivity |].
    eapply find_command_all; [apply Hst | exact Hf].
Qed.

Lemma run_registry sched : forall st,
  state_all no_register st -> registry (run sched st) = registry st.
Proof.
  induction sched as [|ch sched IH]; intros st Hst; [reflexivity|].
  rewrite run_cons, IH by (apply step_all; exact Hst).
  apply step_registry. exact Hst.
Qed.

(** ** Order within a chain: soundness of [guarded] *)

Section PrecedenceFacts.

Variables isX isY : AsyncOp -> bool.
Variable allowed : Status -> bool.
(** The dependent operation is not the operation it waits for. *)
Hypothesis XY : forall op, isX op = true -> isY op = false.

Local Abbreviation status := (status_of isY).
Local Abbreviation guarded' := (guarded isX isY allowed).
Local Abbreviation good := (Good isX isY allowed).

Lemma status_snoc c tr e :
  status c (tr ++ [e]) = observe isY c (status c tr) e.
Proof. unfold status_of. rewrite fold_left_app. reflexivity. Qed.

Lemma observe_other c s e : chain_of e <> c -> observe isY c s e = s.
Proof.
  intros Hne. destruct e as [c' a|c' n|c' op|c' op o|c' o]; simpl in *; try reflexivity.
  - destruct (Nat.eqb_spec c' c); [contradiction | reflexivity].
  - destruct (Nat.eqb_spec c' c); [contradiction | reflexivity].
Qed.

Lemma status_app_other c new : forall tr,
  Forall (fun e => chain_of e <> c) new -> status c (tr ++ new) = status c tr.
Proof.
  induction new as [|e new IH]; intros tr Hnew.
  - rewrite app_nil_r. reflexivity.
  - inversion Hnew as [|? ? He Hrest]; subst.
    change (e :: new) with ([e] ++ new). rewrite app_assoc, IH by exact Hrest.
    rewrite status_snoc. apply observe_other. exact He.
Qed.

Lemma status_unseen c n tr :
  Forall (fun e => chain_of e < n) tr -> n <= c -> status c tr = Fresh.
Proof.
  intros Hb Hle. change tr with ([] ++ tr). rewrite status_app_other; [reflexivity |].
  eapply Forall_impl; [exact Hb |]. simpl. intros e He. lia.
Qed.

Lemma respects_snoc tr e :
  respects isX isY allowed tr ->
  event_allowed isX isY allowed tr e ->
  respects isX isY allowed (tr ++ [e]).
Proof.
  intros Htr He pre e' post Heq.
  destruct post as [|x post _] using rev_ind.
  - apply app_inj_tail in Heq. destruct Heq as [-> ->]. exact He.
  - change (e' :: post ++ [x]) with ((e' :: post) ++ [x]) in Heq.
    rewrite app_assoc in Heq. apply app_inj_tail in Heq. destruct Heq as [-> _].
    apply (Htr pre e' post). reflexivity.
Qed.

Lemma good_emit e st :
  good st ->
  chain_of e < nextChain st ->
  ~ In (chain_of e) (map fst (pool st)) ->
  event_allowed isX isY allowed (trace st) e ->
  good (emit e st).
Proof.
  intros [H1 H2 H3 H4 H5 H6] Hlt Hnin He. constructor; simpl.
  - exact H1.
  - apply Forall_app. split; [exact H2 | repeat constructor; exact Hlt].
  - exact H3.
  - rewrite Forall_forall in H4 |- *. intros ce Hin.
    rewrite status_snoc, observe_other; [apply H4, Hin |].
    intros Heq. apply Hnin. rewrite Heq.
    apply in_map. apply list_elem_of_In. exact Hin.
  - exact H5.
  - apply respects_snoc; assumption.
Qed.

Lemma good_enqueue c en st :
  good st ->
  c < nextChain st ->
  ~ In c (map fst (pool st)) ->
  entry_guarded isX isY allowed (status c (trace st)) en ->
  good (enqueue c en st).
Proof.
  intros [H1 H2 H3 H4 H5 H6] Hlt Hnin Hen. constructor; simpl.
  - apply Forall_app. split; [exact H1 | repeat constructor; exact Hlt].
  - exact H2.
  - rewrite map_app. simpl. apply NoDup_app. split; [exact H3 |]. split.
    + intros x Hx Hx'. apply list_elem_of_In in Hx.
      apply list_elem_of_In in Hx'. destruct Hx' as [->|[]]. contradiction.
    + apply NoDup_singleton.
  - apply Forall_app. split; [exact H4 | repeat constructor; exact Hen].
  - exact H5.
  - exact H6.
Qed.

Lemma good_fresh_chain st : good st -> good (fresh_chain st).
Proof.
  intros [H1 H2 H3 H4 H5 H6]. constructor; simpl; try assumption.
  - eapply Forall_impl; [exact H1 |]. simpl. intros; lia.
  - eapply Forall_impl; [exact H2 |]. simpl. intros; lia.
Qed.

Lemma good_add_command n cb st :
  guarded' Fresh cb -> good st -> good (add_command n cb st).
Proof.
  intros Hcb [H1 H2 H3 H4 H5 H6]. constructor; simpl; try assumption.
  apply Forall_app. split; [exact H5 | repeat constructor; exact Hcb].
Qed.

Lemma good_rest i c en st :
  good st -> pool st !! i = Some (c, en) ->
  good (drop_entry i st) /\
  ~ In c (map fst (pool (drop_entry i st))) /\
  c < nextChain st /\
  entry_guarded isX isY allowed (status c (trace st)) en.
Proof.
  intros [H1 H2 H3 H4 H5 H6] Hi.
  assert (Hsplit : pool st = take i (pool st) ++ (c, en) :: drop (S i) (pool st)).
  { symmetry. apply take_drop_middle. exact Hi. }
  assert (Hin : (c, en) ∈ pool st) by (eapply list_elem_of_lookup_2; exact Hi).
  rewrite Forall_forall in H1, H4.
  split; [constructor; simpl |].
  - apply Forall_app. split; [apply Forall_take | apply Forall_drop];
      apply Forall_forall; exact H1.
  - exact H2.
  - rewrite Hsplit, map_app in H3. simpl in H3.
    rewrite map_app. apply NoDup_app in H3. destruct H3 as (Ha & Hb & Hc).
    apply NoDup_cons in Hc. destruct Hc as [_ Hc].
    apply NoDup_app. split; [exact Ha |]. split; [| exact Hc].
    intros x Hx Hx'. apply (Hb x Hx). right. exact Hx'.
  - apply Forall_app. split; [apply Forall_take | apply Forall_drop];
      apply Forall_forall; exact H4.
  - exact H5.
  - exact H6.
  - split; [| split; [apply (H1 _ Hin) | apply (H4 _ Hin)]].
    simpl. rewrite Hsplit, map_app in H3. simpl in H3.
    apply NoDup_app in H3. destruct H3 as (Ha & Hb & Hc).
    apply NoDup_cons in Hc. destruct Hc as [Hc _].
    rewrite map_app. intros Hx. apply in_app_or in Hx. destruct Hx as [Hx|Hx].
    + apply list_elem_of_In in Hx. apply (Hb c Hx). left.
    + apply Hc. apply list_elem_of_In. exact Hx.
Qed.

Lemma pool_kept (P : ChainId * Entry -> Prop) (l : list (ChainId * Entry)) :
  (forall ce, In ce l -> P ce) -> Forall P l.
Proof. intros H. apply Forall_forall. intros ce Hin. apply H, list_elem_of_In, Hin. Qed.

Lemma exec_good t : forall c st,
  good st -> c < nextChain st -> ~ In c (map fst (pool st)) ->
  guarded' (status c (trace st)) t ->
  good (exec c t st) /\
  nextChain st <= nextChain (exec c t st) /\
  (exists new, trace (exec c t st) = trace st ++ new /\
               Forall (fun e => chain_of e = c \/ nextChain st <= chain_of e) new) /\
  Forall (fun ce => In ce (pool st) \/ fst ce = c \/ nextChain st <= fst ce)
         (pool (exec c t st)).
Proof.
  induction t as [v|e|a k IH|n cb _ k IH|n k IH|k IH|op k _|k _|ch IHch k IHk];
    intros c st Hg Hlt Hnin Ht; simpl in *.
  - split; [apply good_emit; simpl; auto |]. split; [lia |]. split.
    + exists [Returned c (Fulfilled v)]. split; [reflexivity | repeat constructor; auto].
    + apply pool_kept. auto.
  - split; [apply good_emit; simpl; auto |]. split; [lia |]. split.
    + exists [Returned c (Rejected e)]. split; [reflexivity | repeat constructor; auto].
    + apply pool_kept. auto.
  - destruct (IH c (emit (Did c a) st)) as (G & Hn & (new & Etr & Hnew) & Hp).
    + apply good_emit; simpl; auto.
    + exact Hlt.
    + exact Hnin.
    + simpl. rewrite status_snoc. exact Ht.
    + split; [exact G |]. split; [exact Hn |]. split; [| exact Hp].
      exists (Did c a :: new). split.
      * rewrite Etr. simpl. rewrite <- app_assoc. reflexivity.
      * constructor; [left; reflexivity | exact Hnew].
  - destruct Ht as [Hcb Hk].
    destruct (IH c (emit (Registered c n) (add_command n cb st)))
      as (G & Hn & (new & Etr & Hnew) & Hp).
    + apply good_emit; simpl; auto. apply good_add_command; assumption.
    + exact Hlt.
    + exact Hnin.
    + simpl. rewrite status_snoc. exact Hk.
    + split; [exact G |]. split; [exact Hn |]. split; [| exact Hp].
      exists (Registered c n :: new). split.
      * rewrite Etr. simpl. rewrite <- app_assoc. reflexivity.
      * constructor; [left; reflexivity | exact Hnew].
  - apply IH; auto.
  - apply IH; auto.
  - destruct Ht as [Hx Hk]. split; [| split; [lia | split]].
    + apply good_enqueue; simpl; auto.
      * apply good_emit; simpl; auto.
      * rewrite status_snoc. simpl. rewrite Nat.eqb_refl. split.
        -- intros HX. unfold began. rewrite (XY op HX). apply Hx, HX.
        -- exact Hk.
    + exists [Began c op]. split; [reflexivity | repeat constructor; auto].
    + apply Forall_app. split; [apply pool_kept; auto |].
      constructor; [right; left; reflexivity | constructor].
  - split; [| split; [lia | split]].
    + apply good_enqueue; simpl; auto.
    + exists []. split; [rewrite app_nil_r; reflexivity | constructor].
    + apply Forall_app. split; [apply pool_kept; auto |].
      constructor; [right; left; reflexivity | constructor].
  - destruct Ht as [Hch Hk].
    assert (Hb : Forall (fun ce => fst ce < nextChain st) (pool st)) by apply Hg.
    assert (Htb : Forall (fun e => chain_of e < nextChain st) (trace st)) by apply Hg.
    destruct (IHch (nextChain st) (fresh_chain st))
      as (G1 & Hn1 & (new1 & E1 & Hnew1) & Hp1).
    + apply good_fresh_chain, Hg.
    + simpl. lia.
    + simpl. intros Hin. apply in_map_iff in Hin. destruct Hin as (ce & Hce & Hin).
      rewrite Forall_forall in Hb. apply list_elem_of_In in Hin.
      apply Hb in Hin. simpl in Hin. lia.
    + simpl. rewrite (status_unseen _ (nextChain st)); [exact Hch | exact Htb | lia].
    + simpl in *.
      destruct (IHk c (exec (nextChain st) ch (fresh_chain st)))
        as (G2 & Hn2 & (new2 & E2 & Hnew2) & Hp2).
      * exact G1.
      * lia.
      * intros Hin. apply in_map_iff in Hin. destruct Hin as (ce & Hce & Hin).
        rewrite Forall_forall in Hp1. apply list_elem_of_In in Hin.
        destruct (Hp1 _ Hin) as [Hold|[Hnew|Hnew]]; simpl in *; [| lia | lia].
        apply Hnin. rewrite <- Hce. apply in_map. exact Hold.
      * rewrite E1, status_app_other; [exact Hk |].
        eapply Forall_impl; [exact Hnew1 |]. simpl. intros e0 [He0|He0]; lia.
      * split; [exact G2 |]. split; [lia |]. split.
        -- exists (new1 ++ new2). split; [rewrite E2, E1, <- app_assoc; reflexivity |].
           apply Forall_app. split.
           ++ eapply Forall_impl; [exact Hnew1 |]. simpl. intros e0 [He0|He0]; right; lia.
           ++ eapply Forall_impl; [exact Hnew2 |]. simpl. intros e0 [He0|He0];
                [left; exact He0 | right; lia].
        -- rewrite Forall_forall in Hp1, Hp2. apply Forall_forall. intros ce Hin.
           destruct (Hp2 _ Hin) as [Hold|[Hc|Hc]]; [| auto | right; right; lia].
           apply list_elem_of_In in Hold.
           destruct (Hp1 _ Hold) as [Hold'|[Hc|Hc]]; [auto | right; right; lia |
                                                      right; right; lia].
Qed.

Lemma good_with_world f st : good st -> good (with_world f st).
Proof. intros [H1 H2 H3 H4 H5 H6]. constructor; assumption. Qed.

Lemma find_command_guarded n reg cb :
  Forall (fun nc => guarded' Fresh (snd nc)) reg ->
  find_command n reg = Some cb -> guarded' Fresh cb.
Proof.
  induction reg as [|[m t] reg IH]; simpl; intros HF Hfind; [discriminate|].
  inversion HF as [|? ? Hhd Htl]; subst.
  destruct (String.eqb m n); [inversion Hfind; subst; exact Hhd | apply IH; assumption].
Qed.

Lemma exec_good_new cb st :
  good st -> guarded' Fresh cb -> good (exec (nextChain st) cb (fresh_chain st)).
Proof.
  intros Hg Hcb.
  assert (Hb : Forall (fun ce => fst ce < nextChain st) (pool st)) by apply Hg.
  assert (Htb : Forall (fun e => chain_of e < nextChain st) (trace st)) by apply Hg.
  apply exec_good.
  - apply good_fresh_chain, Hg.
  - simpl. lia.
  - simpl. intros Hin. apply in_map_iff in Hin. destruct Hin as (ce & Hce & Hin).
    rewrite Forall_forall in Hb. apply list_elem_of_In in Hin.
    apply Hb in Hin. simpl in Hin. lia.
  - simpl. rewrite (status_unseen _ (nextChain st)); [exact Hcb | exact Htb | lia].
Qed.

Lemma step_good ch st : good st -> good (step ch st).
Proof.
  intros Hg. destruct ch as [i o|i|n v|n]; simpl.
  - destruct (pool st !! i) as [[c [op k|t]]|] eqn:Hi; try exact Hg.
    destruct (good_rest i c _ st Hg Hi) as (Gd & Hnin & Hlt & Hx & Hk).
    apply exec_good.
    + apply good_emit; simpl; auto. apply good_with_world. exact Gd.
    + exact Hlt.
    + exact Hnin.
    + simpl. rewrite status_snoc. simpl. rewrite Nat.eqb_refl. apply Hk.
  - destruct (pool st !! i) as [[c [op k|t]]|] eqn:Hi; try exact Hg.
    destruct (good_rest i c _ st Hg Hi) as (Gd & Hnin & Hlt & Ht).
    apply exec_good; assumption.
  - apply good_with_world. exact Hg.
  - destruct (find_command n (registry st)) as [cb|] eqn:Hf; [| exact Hg].
    apply exec_good_new; [exact Hg |].
    eapply find_command_guarded; [apply Hg | exact Hf].
Qed.

Lemma run_good sched : forall st, good st -> good (run sched st).
Proof.
  induction sched as [|ch sched IH]; intros st Hg; [exact Hg |].
  rewrite run_cons. apply IH, step_good, Hg.
Qed.

Lemma boot_good w : good (boot w).
Proof.
  constructor; simpl; try constructor.
  intros pre e post Heq. destruct pre; discriminate.
Qed.

(** A guarded function keeps the order in every run. *)
Lemma guarded_respects t w sched :
  guarded' Fresh t -> respects isX isY allowed (trace (run sched (call t w))).
Proof.
  intros Ht. apply trace_respects, run_good. unfold call.
  apply exec_good; simpl; [apply boot_good | lia | auto | exact Ht].
Qed.


Lemma status_done c tr :
  status c tr = Done ->
  exists op v, isY op = true /\ In (Settled c op (Fulfilled v)) tr.
Proof.
  induction tr as [|e tr IH] using rev_ind; [discriminate |].
  rewrite status_snoc. intros Hs.
  assert (Hkeep : status c tr = Done ->
                  exists op v, isY op = true /\ In (Settled c op (Fulfilled v)) (tr ++ [e])).
  { intros H. destruct (IH H) as (op & v & Hy & Hin).
    exists op, v. split; [exact Hy | apply in_or_app; left; exact Hin]. }
  destruct e as [c' a|c' n|c' op|c' op o|c' o]; simpl in Hs; auto.
  - destruct (Nat.eqb c' c); [| auto]. unfold began in Hs.
    destruct (isY op); [| auto]. destruct (status c tr); auto; discriminate.
  - destruct (Nat.eqb_spec c' c) as [->|]; [| auto]. unfold settled in Hs.
    destruct (isY op) eqn:Hy; [| auto]. destruct o as [v|x]; simpl in Hs; [| auto].
    exists op, v. split; [exact Hy |]. apply in_or_app. right. left. reflexivity.
Qed.


End PrecedenceFacts.
(** ** Gates: soundness of [gated] *)

Lemma find_command_Forall (P : Task -> Prop) n reg cb :
  Forall (fun nc => P (snd nc)) reg -> find_command n reg = Some cb -> P cb.
Proof.
  induction reg as [|[m t] reg IH]; simpl; intros HF Hfind; [discriminate|].
  inversion HF as [|? ? Hhd Htl]; subst.
  destruct (String.eqb m n); [inversion Hfind; subst; exact Hhd | apply IH; assumption].
Qed.

Section GateFacts.

Variable unlock : AsyncOp -> Outcome -> bool.
Variable needs : Node -> bool.

Local Abbreviation is_opened := (opened unlock).
Local Abbreviation gated' := (gated unlock needs).
Local Abbreviation ginv := (gate_inv unlock needs).

Lemma gated_mono t : forall a b,
  (a = true -> b = true) -> gated' a t -> gated' b t.
Proof.
  induction t as [v|e|s k IH|n cb IHcb k IH|n k IH|k IH|op k IH|k IH|ch IHch k IHk];
    intros a b Hab Ht; simpl in *.
  - exact I.
  - exact I.
  - destruct Ht as [H1 H2]. split; [intros Hn; apply Hab, H1, Hn | eapply IH; eauto].
  - destruct Ht as (H1 & H2 & H3).
    split; [intros Hn; apply Hab, H1, Hn | split; [eapply IHcb | eapply IH]; eauto].
  - intros v. eapply IH; eauto.
  - intros x. eapply IH; eauto.
  - destruct Ht as [H1 H2]. split; [intros Hn; apply Hab, H1, Hn |].
    intros o. eapply IH; [| apply H2].
    intros H. apply orb_true_iff in H. apply orb_true_iff.
    destruct H as [H|H]; [left; apply Hab, H | right; exact H].
  - eapply IH; eauto.
  - destruct Ht as [H1 H2]. split; [eapply IHch | eapply IHk]; eauto.
Qed.

Lemma opened_snoc tr e : is_opened (tr ++ [e]) = is_opened tr || unlocks unlock e.
Proof. unfold opened. rewrite existsb_app. simpl. rewrite orb_false_r. reflexivity. Qed.

Lemma gate_kept_snoc tr e :
  gate_kept unlock needs tr -> event_gated unlock needs tr e ->
  gate_kept unlock needs (tr ++ [e]).
Proof.
  intros Htr He pre e' post Heq.
  destruct post as [|x post _] using rev_ind.
  - apply app_inj_tail in Heq. destruct Heq as [-> ->]. exact He.
  - change (e' :: post ++ [x]) with ((e' :: post) ++ [x]) in Heq.
    rewrite app_assoc in Heq. apply app_inj_tail in Heq. destruct Heq as [-> _].
    apply (Htr pre e' post). reflexivity.
Qed.

(** An event that does not unlock leaves the gate as it is. *)
Lemma gate_emit e st :
  unlocks unlock e = false -> event_gated unlock needs (trace st) e ->
  ginv st ->
  ginv (emit e st) /\ is_opened (trace (emit e st)) = is_opened (trace st).
Proof.
  intros Hu He (Hp & Hr & Hk).
  assert (E : is_opened (trace (emit e st)) = is_opened (trace st)).
  { simpl. rewrite opened_snoc, Hu, orb_false_r. reflexivity. }
  split; [| exact E].
  unfold gate_inv. rewrite E. split; [exact Hp | split; [exact Hr |]].
  apply gate_kept_snoc; assumption.
Qed.

Lemma gate_enqueue c en st :
  entry_gated unlock needs (is_opened (trace st)) en -> ginv st -> ginv (enqueue c en st).
Proof.
  intros He (Hp & Hr & Hk). split; [| split; [exact Hr | exact Hk]].
  simpl. apply Forall_app. split; [exact Hp | repeat constructor; exact He].
Qed.

Lemma exec_gate t : forall c st,
  gated' (is_opened (trace st)) t -> ginv st ->
  ginv (exec c t st) /\ is_opened (trace (exec c t st)) = is_opened (trace st).
Proof.
  induction t as [v|e|s k IH|n cb _ k IH|n k IH|k IH|op k _|k _|ch IHch k IHk];
    intros c st Ht Hst; simpl in Ht; simpl exec.
  - apply gate_emit; [reflexivity | exact I | exact Hst].
  - apply gate_emit; [reflexivity | exact I | exact Hst].
  - destruct Ht as [Hs Hk].
    destruct (gate_emit (Did c s) st eq_refl Hs Hst) as [H1 E1].
    destruct (IH c (emit (Did c s) st)) as [H2 E2]; [rewrite E1; exact Hk | exact H1 |].
    split; [exact H2 | rewrite E2; exact E1].
  - destruct Ht as (Hn & Hcb & Hk).
    assert (Hadd : ginv (add_command n cb st)).
    { destruct Hst as (Hp & Hr & Hg). split; [exact Hp | split; [| exact Hg]].
      simpl. apply Forall_app. split; [exact Hr | repeat constructor; exact Hcb]. }
    destruct (gate_emit (Registered c n) (add_command n cb st) eq_refl Hn Hadd)
      as [H1 E1].
    destruct (IH c (emit (Registered c n) (add_command n cb st))) as [H2 E2];
      [rewrite E1; exact Hk | exact H1 |].
    split; [exact H2 | rewrite E2; exact E1].
  - apply IH; [apply Ht | exact Hst].
  - apply IH; [apply Ht | exact Hst].
  - destruct Ht as [Hop Hk].
    destruct (gate_emit (Began c op) st eq_refl Hop Hst) as [H1 E1].
    split; [| exact E1].
    apply gate_enqueue; [| exact H1]. unfold entry_gated. intros o. rewrite E1. apply Hk.
  - split; [| reflexivity]. apply gate_enqueue; [exact Ht | exact Hst].
  - destruct Ht as [Hch Hk].
    destruct (IHch (nextChain st) (fresh_chain st) Hch Hst) as [H1 E1].
    destruct (IHk c (exec (nextChain st) ch (fresh_chain st))) as [H2 E2];
      [rewrite E1; exact Hk | exact H1 |].
    split; [exact H2 | rewrite E2; exact E1].
Qed.

Lemma gate_drop i st : ginv st -> ginv (drop_entry i st).
Proof.
  intros (Hp & Hr & Hk). split; [| split; [exact Hr | exact Hk]]. simpl.
  apply Forall_app. split; [apply Forall_take | apply Forall_drop]; exact Hp.
Qed.

Lemma gate_lookup st i c en :
  ginv st -> pool st !! i = Some (c, en) ->
  entry_gated unlock needs (is_opened (trace st)) en.
Proof.
  intros (Hp & _) Hi. rewrite Forall_forall in Hp.
  apply (Hp (c, en)). eapply list_elem_of_lookup_2; exact Hi.
Qed.

(** A settlement can only open the gate. *)
Lemma gate_settle c op o st :
  ginv st -> ginv (emit (Settled c op o) st) /\
  is_opened (trace (emit (Settled c op o) st)) = is_opened (trace st) || unlock op o.
Proof.
  intros (Hp & Hr & Hk).
  assert (E : is_opened (trace (emit (Settled c op o) st)) =
              is_opened (trace st) || unlock op o).
  { simpl. rewrite opened_snoc. reflexivity. }
  split; [| exact E]. unfold gate_inv. rewrite E. split; [| split].
  - eapply Forall_impl; [exact Hp |]. intros [c' [op' k|t]] H; simpl in *.
    + intros o'. eapply gated_mono; [| apply (H o')].
      intros Ho. apply orb_true_iff in Ho. rewrite !orb_true_iff. tauto.
    + eapply gated_mono; [| apply H]. intros Ho. rewrite orb_true_iff. tauto.
  - eapply Forall_impl; [exact Hr |]. intros [n t] H; simpl in *.
    eapply gated_mono; [| apply H]. intros Ho. rewrite orb_true_iff. tauto.
  - apply gate_kept_snoc; [exact Hk | exact I].
Qed.

Lemma step_gate ch st : ginv st -> ginv (step ch st).
Proof.
  intros Hst. destruct ch as [i o|i|n v|n]; simpl.
  - destruct (pool st !! i) as [[c [op k|t]]|] eqn:Hi; try exact Hst.
    pose proof (gate_lookup st i c _ Hst Hi) as Hk. simpl in Hk.
    destruct (gate_settle c op o (with_world (effect op o) (drop_entry i st)))
      as [H1 E1]; [apply gate_drop, Hst |].
    apply exec_gate; [| exact H1]. rewrite E1. apply Hk.
  - destruct (pool st !! i) as [[c [op k|t]]|] eqn:Hi; try exact Hst.
    pose proof (gate_lookup st i c _ Hst Hi) as Hk. simpl in Hk.
    apply exec_gate; [exact Hk | apply gate_drop, Hst].
  - exact Hst.
  - destruct (find_command n (registry st)) as [cb|] eqn:Hf; [| exact Hst].
    apply (exec_gate cb (nextChain st) (fresh_chain st)); [| exact Hst].
    apply (find_command_Forall (gated' (is_opened (trace st))) n (registry st));
      [apply Hst | exact Hf].
Qed.

Lemma run_gate sched : forall st, ginv st -> ginv (run sched st).
Proof.
  induction sched as [|ch sched IH]; intros st Hst; [exact Hst |].
  rewrite run_cons. apply IH, step_gate, Hst.
Qed.

(** A function that keeps to the gate does so in every run. *)
Lemma gated_sound t w sched :
  gated' false t -> gate_kept unlock needs (trace (run sched (call t w))).
Proof.
  intros Ht.
  assert (Hboot : ginv (boot w)).
  { split; [constructor | split; [constructor |]].
    intros pre e post Heq. destruct pre; discriminate. }
  apply (run_gate sched (call t w)). unfold call.
  apply exec_gate; [exact Ht | exact Hboot].
Qed.

(** The same with the unlocking settlement named. *)
Lemma gated_after t w sched pre e post n :
  gated' false t ->
  trace (run sched (call t w)) = pre ++ e :: post ->
  node_of e = Some n -> needs n = true ->
  exists c op o, In (Settled c op o) pre /\ unlock op o = true.
Proof.
  intros Ht Heq Hn Hneeds.
  pose proof (gated_sound t w sched Ht pre e post Heq) as H.
  unfold event_gated in H. rewrite Hn in H. specialize (H Hneeds).
  unfold opened in H. apply existsb_exists in H. destruct H as (x & Hin & Hx).
  destruct x as [c a|c m|c op|c op o|c o]; try discriminate.
  exists c, op, o. split; [exact Hin | exact Hx].
Qed.

End GateFacts.

(** ** Budgets: soundness of [within] *)

Section BudgetFacts.

Variable cost : Node -> nat.

Local Abbreviation within' := (within cost).
Local Abbreviation fits := (fun (b : nat) (ce : ChainId * Entry) =>
                              entry_within cost b (snd ce)).
Local Abbreviation free := (fun nc : string * Task => within cost 0 (snd nc)).

Lemma spent_snoc tr e : spent cost (tr ++ [e]) = spent cost tr + event_cost cost e.
Proof. unfold spent. rewrite sum_list_with_app. simpl. lia. Qed.

Lemma sum_list_snoc (l : list nat) x : sum_list (l ++ [x]) = sum_list l + x.
Proof. rewrite sum_list_with_app. simpl. unfold id. lia. Qed.

(** What a task spends and leaves to its continuations is what it was
    given. *)
Lemma exec_budget t : forall c st n budgets,
  within' n t ->
  Forall2 fits budgets (pool st) -> Forall free (registry st) ->
  exists budgets',
    Forall2 fits budgets' (pool (exec c t st)) /\
    Forall free (registry (exec c t st)) /\
    spent cost (trace (exec c t st)) + sum_list budgets' <=
    spent cost (trace st) + sum_list budgets + n.
Proof.
  induction t as [v|e|s k IH|x cb _ k IH|x k IH|k IH|op k _|k _|ch IHch k IHk];
    intros c st n bs Ht Hp Hr; simpl in Ht; simpl exec.
  - exists bs. split; [exact Hp | split; [exact Hr |]].
    simpl. rewrite spent_snoc. unfold event_cost. simpl. lia.
  - exists bs. split; [exact Hp | split; [exact Hr |]].
    simpl. rewrite spent_snoc. unfold event_cost. simpl. lia.
  - destruct Ht as [Hle Hk].
    destruct (IH c (emit (Did c s) st) _ bs Hk Hp Hr) as (bs' & H1 & H2 & H3).
    exists bs'. split; [exact H1 | split; [exact H2 |]].
    simpl in H3. rewrite spent_snoc in H3. unfold event_cost in H3. simpl in H3. lia.
  - destruct Ht as (Hle & Hcb & Hk).
    destruct (IH c (emit (Registered c x) (add_command x cb st)) _ bs Hk Hp)
      as (bs' & H1 & H2 & H3).
    { simpl. apply Forall_app. split; [exact Hr | repeat constructor; exact Hcb]. }
    exists bs'. split; [exact H1 | split; [exact H2 |]].
    simpl in H3. rewrite spent_snoc in H3. unfold event_cost in H3. simpl in H3. lia.
  - apply IH; [apply Ht | exact Hp | exact Hr].
  - apply IH; [apply Ht | exact Hp | exact Hr].
  - destruct Ht as [Hle Hk]. exists (bs ++ [n - cost (NAwait op)]).
    split; [| split; [exact Hr |]].
    + simpl. apply Forall2_app; [exact Hp | repeat constructor; exact Hk].
    + simpl. rewrite spent_snoc, sum_list_snoc. unfold event_cost. simpl. lia.
  - exists (bs ++ [n]). split; [| split; [exact Hr |]].
    + simpl. apply Forall2_app; [exact Hp | repeat constructor; exact Ht].
    + simpl. rewrite sum_list_snoc. lia.
  - destruct Ht as (a & Hle & Hch & Hk).
    destruct (IHch (nextChain st) (fresh_chain st) a bs Hch Hp Hr)
      as (bs1 & H1 & H2 & H3).
    destruct (IHk c (exec (nextChain st) ch (fresh_chain st)) (n - a) bs1 Hk H1 H2)
      as (bs2 & H4 & H5 & H6).
    exists bs2. split; [exact H4 | split; [exact H5 |]].
    simpl in H3. lia.
Qed.

Lemma budget_rest i c en st total :
  budget_inv cost total st -> pool st !! i = Some (c, en) ->
  exists b rest,
    entry_within cost b en /\
    Forall2 fits rest (pool (drop_entry i st)) /\
    Forall free (registry st) /\
    spent cost (trace st) + sum_list rest + b <= total.
Proof.
  intros (bs & Hp & Hr & Hle) Hi.
  destruct (Forall2_lookup_r _ _ _ _ _ Hp Hi) as (b & Hb & Hen).
  exists b, (take i bs ++ drop (S i) bs). split; [exact Hen | split; [| split]].
  - simpl. apply Forall2_app; [apply Forall2_take | apply Forall2_drop]; exact Hp.
  - exact Hr.
  - rewrite <- (take_drop_middle bs i b Hb) in Hle.
    rewrite sum_list_with_app in Hle. simpl in Hle.
    rewrite sum_list_with_app. unfold id in *. lia.
Qed.

Lemma step_budget total ch st :
  budget_inv cost total st -> budget_inv cost total (step ch st).
Proof.
  intros Hst. destruct ch as [i o|i|x v|x]; simpl.
  - destruct (pool st !! i) as [[c [op k|t]]|] eqn:Hi; try exact Hst.
    destruct (budget_rest i c _ st total Hst Hi) as (b & rest & Hen & Hp & Hr & Hle).
    destruct (exec_budget (k o) c
                (emit (Settled c op o) (with_world (effect op o) (drop_entry i st)))
                b rest (Hen o) Hp Hr) as (bs' & H1 & H2 & H3).
    exists bs'. split; [exact H1 | split; [exact H2 |]].
    simpl in H3. rewrite spent_snoc in H3. unfold event_cost in H3. simpl in H3. lia.
  - destruct (pool st !! i) as [[c [op k|t]]|] eqn:Hi; try exact Hst.
    destruct (budget_rest i c _ st total Hst Hi) as (b & rest & Hen & Hp & Hr & Hle).
    destruct (exec_budget t c (drop_entry i st) b rest Hen Hp Hr)
      as (bs' & H1 & H2 & H3).
    exists bs'. split; [exact H1 | split; [exact H2 |]].
    simpl in H3. lia.
  - exact Hst.
  - destruct (find_command x (registry st)) as [cb|] eqn:Hf; [| exact Hst].
    destruct Hst as (bs & Hp & Hr & Hle).
    destruct (exec_budget cb (nextChain st) (fresh_chain st) 0 bs
                (find_command_Forall (within' 0) x (registry st) cb Hr Hf) Hp Hr)
      as (bs' & H1 & H2 & H3).
    exists bs'. split; [exact H1 | split; [exact H2 |]].
    simpl in H3. lia.
Qed.

Lemma run_budget total sched : forall st,
  budget_inv cost total st -> budget_inv cost total (run sched st).
Proof.
  induction sched as [|ch sched IH]; intros st Hst; [exact Hst |].
  rewrite run_cons. apply IH, step_budget, Hst.
Qed.

(** A function within a budget stays within it in every run. *)
Lemma within_sound total t w sched :
  within' total t -> spent cost (trace (run sched (call t w))) <= total.
Proof.
  intros Ht.
  assert (Hcall : budget_inv cost total (call t w)).
  { unfold call.
    destruct (exec_budget t 0 (boot w) total [] Ht) as (bs & H1 & H2 & H3);
      [constructor | constructor |].
    exists bs. split; [exact H1 | split; [exact H2 |]]. simpl in H3. lia. }
  destruct (run_budget total sched _ Hcall) as (bs & _ & _ & Hle). lia.
Qed.

End BudgetFacts.

Ltac crush_all :=
  repeat first
    [ exact I
    | discriminate
    | progress intros
    | split
    | match goal with
      | |- context [match ?x with Fulfilled _ => _ | Rejected _ => _ end] => destruct x
      | |- context [if ?x then _ else _] => destruct x
      end
    | progress cbn ].

(** ** Activation *)

Lemma detectionChain_no_register : task_all no_register detectionChain.
Proof.
  unfold detectionChain, setupReactNativeDebugger, setupReactNativeIntellisense,
    debuggerChain, promptChain, tsconfigChain, typingsChain, enableSalsa,
    installTypescriptNext, installChain.
  crush_all.
Qed.

Lemma activate_state_no_register w : state_all no_register (call activate w).
Proof.
  split.
  - repeat constructor. intros o. apply detectionChain_no_register.
  - repeat constructor.
Qed.

(** C1.  Whatever the applicability check answers, and before it has
    answered at all, [activate] has registered exactly the four
    commands [reactNative.runAndroid], [reactNative.runIos],
    [reactNative.startPackager] and [reactNative.stopPackager] by the
    time it returns; nothing that happens later adds or removes a
    command; and each command is a trigger without arguments that
    calls the method of the same name on the command handler built
    from the workspace root. *)
Theorem activate_registers_four_commands (w : World) (sched : list Choice) :
  let st0 := call activate w in
  let st := run sched st0 in
  trace st0 =
    [ Did 0 (NewReactNativeProjectHelper rootPath);
      Began 1 (IsReactNativeProject rootPath);
      Did 0 (NewCommandPaletteHandler rootPath);
      Registered 0 "reactNative.runAndroid";
      Did 0 (PushSubscription (CommandRegistration "reactNative.runAndroid"));
      Registered 0 "reactNative.runIos";
      Did 0 (PushSubscription (CommandRegistration "reactNative.runIos"));
      Registered 0 "reactNative.startPackager";
      Did 0 (PushSubscription (CommandRegistration "reactNative.startPackager"));
      Registered 0 "reactNative.stopPackager";
      Did 0 (PushSubscription (CommandRegistration "reactNative.stopPackager"));
      Returned 0 (Fulfilled VUndefined) ] /\
  registry st0 = four_commands /\
  registry st = four_commands /\
  Forall (fun cm =>
            trace (step (Invoke (fst cm)) st) =
            trace st ++ [ Did (nextChain st) (HandlerCall rootPath (snd cm));
                          Returned (nextChain st) (Fulfilled VUndefined) ])
         command_table.
Proof.
  intros st0 st.
  assert (Hreg : registry st = four_commands).
  { unfold st. rewrite run_registry by apply activate_state_no_register. reflexivity. }
  split; [reflexivity |]. split; [reflexivity |]. split; [exact Hreg |].
  clearbody st.
  repeat constructor; unfold step; rewrite Hreg; cbn;
    rewrite <- app_assoc; reflexivity.
Qed.

(** ** The opt-in flag *)

Lemma exec_setupReactNativeIntellisense c st :
  exec c setupReactNativeIntellisense st =
  exec c ((if negb (flag_set (world st))
           then Spawn promptChain (Ret VUndefined) else Ret VUndefined) ;;
          Spawn tsconfigChain (Spawn typingsChain (Ret VUndefined))) st.
Proof. reflexivity. Qed.

Lemma tsconfigChain_no_prompt : task_all no_prompt tsconfigChain.
Proof. unfold tsconfigChain, no_prompt. crush_all. Qed.

Lemma typingsChain_no_prompt : task_all no_prompt typingsChain.
Proof. unfold typingsChain, installTypescriptNext, installChain, no_prompt. crush_all. Qed.

(** C5.  When [VSCODE_TSJS] is set in the environment the process sees
    at the moment [setupReactNativeIntellisense] runs, the confirmation
    prompt is never shown, on any platform and however the pending
    operations settle afterwards; so the prompt appears only when the
    flag is unset. *)
Theorem no_prompt_when_flag_set (w : World) (sched : list Choice) (c : ChainId) :
  flag_set w = true ->
  ~ In (Began c salsaPrompt)
       (trace (run sched (call setupReactNativeIntellisense w))).
Proof.
  intros Hset Hin.
  assert (Hall : state_all no_prompt (call setupReactNativeIntellisense w)).
  { unfold call. rewrite exec_setupReactNativeIntellisense.
    change (world (boot w)) with w. rewrite Hset. split.
    - repeat constructor; try discriminate; intros o.
      + apply (proj2 tsconfigChain_no_prompt).
      + apply (proj2 typingsChain_no_prompt).
    - constructor. }
  destruct (run_trace no_prompt sched _ Hall) as (new & E & Hnew).
  rewrite E in Hin. apply in_app_or in Hin. destruct Hin as [Hin|Hin].
  - unfold call in Hin. rewrite exec_setupReactNativeIntellisense in Hin.
    change (world (boot w)) with w in Hin. rewrite Hset in Hin.
    simpl in Hin. intuition discriminate.
  - rewrite Forall_forall in Hnew. apply list_elem_of_In in Hin.
    apply Hnew in Hin. apply Hin. reflexivity.
Qed.

(** With the flag unset the prompt is the first thing shown. *)
Lemma prompt_when_flag_unset (w : World) (sched : list Choice) :
  flag_set w = false ->
  In (Began 1 salsaPrompt)
     (trace (run sched (call setupReactNativeIntellisense w))).
Proof.
  intros Hunset.
  assert (Hall : state_all (fun _ => True) (call setupReactNativeIntellisense w)).
  { apply exec_all; [| split; constructor].
    apply (task_all_weaken no_register); [intros; exact I |].
    unfold setupReactNativeIntellisense, promptChain, tsconfigChain, typingsChain,
      enableSalsa, installTypescriptNext, installChain. crush_all. }
  destruct (run_trace _ sched _ Hall) as (new & E & _).
  rewrite E. apply in_or_app. left.
  unfold call. rewrite exec_setupReactNativeIntellisense.
  change (world (boot w)) with w. rewrite Hunset. simpl. left. reflexivity.
Qed.

(** A variable that is present with an empty value reads as unset. *)
Lemma empty_flag_reads_as_unset (w : World) :
  env w !! "VSCODE_TSJS" = Some EmptyString -> flag_set w = false.
Proof. intros H. unfold flag_set. rewrite H. reflexivity. Qed.

Lemma exec_enableSalsa c st :
  exec c enableSalsa st =
  if negb (flag_set (world st)) then
    exec c
      (Act (ChildProcessExec (salsa_command (platform (world st))))
         (Spawn
            (done_ (then_ installTypescriptNext
                          (fun _ => Act (ShowInformationNotice restartNotice)
                                        (Ret VUndefined))))
            (Ret VUndefined))) st
  else emit (Returned c (Fulfilled VUndefined)) st.
Proof.
  unfold enableSalsa, flag_set, salsa_command.
  cbn [exec bind getenv].
  destruct (negb (truthy (env_value (env (world st) !! "VSCODE_TSJS")))); [|reflexivity].
  cbn [exec bind].
  destruct (String.eqb (platform (world st)) "Darwin"); [reflexivity |].
  cbn [exec bind].
  destruct (String.eqb (platform (world st)) "Windows"); reflexivity.
Qed.

(** C9.  [enableSalsa] tests the flag again on entry: called in any
    state in which [VSCODE_TSJS] is set, on any chain (so also from the
    callback of an accepted prompt), it does nothing but return: no
    process is started, no installation begins, no notice is shown,
    and nothing is left pending. *)
Theorem enableSalsa_noop_when_flag_set (c : ChainId) (st : State) :
  flag_set (world st) = true ->
  exec c enableSalsa st = emit (Returned c (Fulfilled VUndefined)) st.
Proof.
  intros Hset. rewrite exec_enableSalsa, Hset. reflexivity.
Qed.

(** C7 (what the code does on Windows).  On a Windows host [os.type()]
    answers [Windows_NT], which is neither of the two names the source
    compares with: with the flag unset, [enableSalsa] runs the child
    process with an empty command line, so [setx VSCODE_TSJS 1] is not
    executed, and then goes on to the installation. *)
Theorem enableSalsa_on_windows_runs_no_setx
    (d : gset string) (f : gmap string string) (m : gset (string * string))
    (t : TsConfig) (k : option string) :
  trace (call enableSalsa
           {| env := ∅; platform := windows_os_type; dirs := d; files := f;
              mirrors := m; tsconfig := t; tsdk := k |}) =
  [ Did 0 (ChildProcessExec EmptyString);
    Began 1 (Exists typeScriptNextLibPath);
    Returned 0 (Fulfilled VUndefined) ].
Proof. reflexivity. Qed.

(** The command line in general: the two names the branch knows. *)
Lemma enableSalsa_command (w : World) :
  flag_set w = false ->
  trace (call enableSalsa w) =
  [ Did 0 (ChildProcessExec (salsa_command (platform w)));
    Began 1 (Exists typeScriptNextLibPath);
    Returned 0 (Fulfilled VUndefined) ].
Proof.
  intros Hunset. unfold call. rewrite exec_enableSalsa.
  change (world (boot w)) with w. rewrite Hunset.
  unfold installTypescriptNext, installChain, js_or.
  cbn [negb exec bind then_ done_ try_ getenv].
  match goal with |- context [if ?b then _ else _] => destruct b end; reflexivity.
Qed.

(** ** The debugger stub *)

Lemma append_assoc (a b c : string) : (a +:+ b) +:+ c = a +:+ (b +:+ c).
Proof.
  induction a as [|x a IH]; [reflexivity |].
  change (String x ((a +:+ b) +:+ c) = String x (a +:+ (b +:+ c))).
  rewrite IH. reflexivity.
Qed.

Lemma call_run_trace Q t w sched :
  task_all Q t -> Forall (event_ok Q) (trace (run sched (call t w))).
Proof.
  intros Ht. unfold call.
  destruct (exec_trace Q t 0 (boot w) Ht) as (n1 & E1 & H1).
  assert (Hall : state_all Q (exec 0 t (boot w))).
  { apply exec_all; [exact Ht | split; constructor]. }
  destruct (run_trace Q sched _ Hall) as (n2 & E2 & H2).
  rewrite E2, E1. simpl. apply Forall_app. split; assumption.
Qed.

Lemma setupReactNativeDebugger_writes_stub :
  task_all stub_write_node setupReactNativeDebugger.
Proof.
  unfold setupReactNativeDebugger, debuggerChain. crush_all.
Qed.

(** C2.  For every package name and version the generated stub starts
    with the two header lines, the name and the version copied in as
    they are.  The contents depend on nothing else but the launcher
    path, so two invocations of [setupReactNativeDebugger] in a row
    write the same bytes: whatever the schedules, every write either
    invocation starts is a write of these contents to the stub path,
    and when both invocations succeed the file tree after the second
    equals the one after the first. *)
Theorem stub_header_and_idempotence (w : World) (s1 s2 : list Choice) :
  (exists rest, debuggerEntryCode = stub_header +:+ nl +:+ rest) /\
  (let st1 := run s1 (call setupReactNativeDebugger w) in
   let st2 := run s2 (call setupReactNativeDebugger (world st1)) in
   Forall writes_stub (trace st1 ++ trace st2)) /\
  (let st1 := run provision_ok (call setupReactNativeDebugger w) in
   let st2 := run provision_ok (call setupReactNativeDebugger (world st1)) in
   files (world st1) !! debugStub = Some debuggerEntryCode /\
   files (world st2) !! debugStub = Some debuggerEntryCode /\
   files (world st2) = files (world st1)).
Proof.
  split; [| split].
  - eexists. unfold debuggerEntryCode, stub_header.
    rewrite !append_assoc. reflexivity.
  - intros st1 st2. apply Forall_app. split.
    + eapply Forall_impl; [apply call_run_trace, setupReactNativeDebugger_writes_stub |].
      intros [c s|c n|c [] |c [] o|c o]; simpl; auto.
    + eapply Forall_impl; [apply call_run_trace, setupReactNativeDebugger_writes_stub |].
      intros [c s|c n|c [] |c [] o|c o]; simpl; auto.
  - cbn. rewrite !lookup_insert_eq, insert_insert_eq. auto.
Qed.


(** The same one choice at a time, innermost state first, so that a
    fact about a value can be brought in before the next turn looks at
    it. *)
Ltac tidy_state s :=
  eval cbv [emit enqueue with_world drop_entry fresh_chain add_command boot
            world registry trace pool nextChain world_after app take drop] in s.

Ltac sim_one :=
  first
    [ match goal with
      | |- context [exec ?c ?t (boot ?w)] =>
        let s := eval cbn [exec bind try_ then_ catch_ done_ await getenv js_or negb]
                 in (exec c t (boot w)) in
        let s := tidy_state s in
        change (exec c t (boot w)) with s
      end
    | match goal with
      | |- context [run (@nil Choice) ?S] => rewrite (run_nil S)
      end
    | match goal with
      | |- context [run (?c :: ?rest) (Build_State ?a ?b ?d ?e ?f)] =>
        rewrite (run_cons c rest (Build_State a b d e f))
      end
    | match goal with
      | |- context [step ?c (Build_State ?a ?b ?d ?e ?f)] =>
        let s := eval cbn [step exec find_command lookup list_lookup pool registry
                           nextChain drop_entry
                           bind try_ then_ catch_ done_ await getenv js_or negb]
                 in (step c (Build_State a b d e f)) in
        let s := tidy_state s in
        change (step c (Build_State a b d e f)) with s
      end ].

Lemma set_env_effect n x op o w :
  set_env n x (effect op o w) = effect op o (set_env n x w).
Proof. destruct o; [destruct op |]; reflexivity. Qed.





(** ** Installing the alternate toolchain *)

(** The two environment variables are read and the value is dropped. *)
Lemma exec_installTypescriptNext c st :
  exec c installTypescriptNext st = exec c installChain st.
Proof.
  unfold installTypescriptNext, js_or. cbn [exec bind getenv].
  match goal with |- context [if ?b then _ else _] => destruct b end; reflexivity.
Qed.


Ltac use_truthy :=
  repeat match goal with H : truthy _ = _ |- _ => progress rewrite H end.


Ltac split_outcomes :=
  repeat match goal with r : Outcome |- _ => destruct r end.





(** ** Independence of the home directory *)

Lemma same_but_env_exec t : forall c a b,
  task_all no_getenv t -> same_but_env a b ->
  same_but_env (exec c t a) (exec c t b).
Proof.
  induction t as [v|e|s k IH|n cb _ k IH|n k IH|k IH|op k _|k _|ch IHch k IHk];
    intros c a b Ht Hab; simpl in *.
  - unfold same_but_env in *; simpl; intuition congruence.
  - unfold same_but_env in *; simpl; intuition congruence.
  - apply IH; [apply Ht |]. unfold same_but_env in *; simpl; intuition congruence.
  - apply IH; [apply Ht |]. unfold same_but_env in *; simpl; intuition congruence.
  - destruct Ht as [[] _].
  - assert (E : platform (world a) = platform (world b)) by apply Hab.
    rewrite E. apply IH; [apply Ht | exact Hab].
  - unfold same_but_env in *; simpl; intuition congruence.
  - unfold same_but_env in *; simpl; intuition congruence.
  - destruct Ht as [Hch Hk].
    assert (E : nextChain a = nextChain b) by apply Hab.
    rewrite E. apply IHk; [exact Hk |]. apply IHch; [exact Hch |].
    unfold same_but_env in *; simpl; intuition congruence.
Qed.

Lemma same_but_env_effect op o a b :
  same_but_env a b ->
  same_but_env (with_world (effect op o) a) (with_world (effect op o) b).
Proof.
  intros H. unfold same_but_env in *.
  destruct o as [v|e]; [destruct op |]; simpl; intuition congruence.
Qed.

Lemma same_but_env_step ch a b :
  state_all no_getenv a -> same_but_env a b ->
  same_but_env (step ch a) (step ch b).
Proof.
  intros Hall Hab.
  assert (Ep : pool a = pool b) by apply Hab.
  assert (Er : registry a = registry b) by apply Hab.
  assert (En : nextChain a = nextChain b) by apply Hab.
  destruct ch as [i o|i|n v|n]; simpl.
  - rewrite <- Ep. destruct (pool a !! i) as [[c [op k|t]]|] eqn:Hi; try exact Hab.
    apply same_but_env_exec; [apply (lookup_entry_all _ _ _ _ _ Hall Hi) |].
    assert (H : same_but_env (with_world (effect op o) (drop_entry i a))
                             (with_world (effect op o) (drop_entry i b))).
    { apply same_but_env_effect. unfold same_but_env in *; simpl; intuition congruence. }
    unfold same_but_env in *; simpl in *; intuition congruence.
  - rewrite <- Ep. destruct (pool a !! i) as [[c [op k|t]]|] eqn:Hi; try exact Hab.
    apply same_but_env_exec; [apply (lookup_entry_all _ _ _ _ _ Hall Hi) |].
    unfold same_but_env in *; simpl; intuition congruence.
  - unfold same_but_env in *; simpl; intuition congruence.
  - rewrite <- Er, <- En.
    destruct (find_command n (registry a)) as [cb|] eqn:Hf; [|exact Hab].
    apply same_but_env_exec; [eapply find_command_all; [apply Hall | exact Hf] |].
    unfold same_but_env in *; simpl; intuition congruence.
Qed.

Lemma same_but_env_run sched : forall a b,
  state_all no_getenv a -> same_but_env a b ->
  same_but_env (run sched a) (run sched b).
Proof.
  induction sched as [|ch sched IH]; intros a b Hall Hab; [exact Hab |].
  rewrite !run_cons. apply IH; [apply step_all; exact Hall |].
  apply same_but_env_step; assumption.
Qed.

Lemma installChain_no_getenv : task_all no_getenv installChain.
Proof. unfold installChain. crush_all. Qed.

(** C10.  What [installTypescriptNext] does is independent of [HOME]
    and [USERPROFILE]: in two worlds that differ in nothing but these
    two variables, the same schedule gives the same trace (the same
    file system operations, the same settings write, the same result
    of the returned promise) and leaves the same files, configuration
    and settings. *)
Theorem installTypescriptNext_ignores_home (w1 w2 : World) (sched : list Choice) :
  differ_only_in_home w1 w2 ->
  same_but_env (run sched (call installTypescriptNext w1))
               (run sched (call installTypescriptNext w2)).
Proof.
  intros (_ & Hp & Hd & Hf & Hm & Hc & Hs).
  unfold call. rewrite !exec_installTypescriptNext.
  apply same_but_env_run.
  - apply exec_all; [apply installChain_no_getenv | split; constructor].
  - apply same_but_env_exec; [apply installChain_no_getenv |].
    unfold same_but_env; simpl; intuition congruence.
Qed.

(** ** The order of the intellisense steps *)

Ltac solve_status :=
  unfold only_done, not_pending, began, settled, is_op;
  repeat (case_bool_decide; try congruence); simpl; congruence.

Ltac guard_tac :=
  repeat first
    [ exact I
    | split
    | progress intros
    | match goal with
      | H : is_op _ _ = true |- _ =>
        unfold is_op in H; apply bool_decide_eq_true in H;
        first [ discriminate H | solve_status ]
      end
    | match goal with
      | |- context [match ?x with Fulfilled _ => _ | Rejected _ => _ end] => destruct x
      | |- context [if ?x then _ else _] => destruct x
      end
    | progress cbn [guarded bind try_ then_ catch_ done_ await getenv js_or] ].

Lemma intellisense_guards_exclude :
  guarded (is_op configExcludeStep) (is_op configFlagStep) only_done Fresh
          setupReactNativeIntellisense.
Proof.
  unfold setupReactNativeIntellisense, promptChain, tsconfigChain, typingsChain,
    enableSalsa, installTypescriptNext, installChain, configExcludeStep, configFlagStep.
  guard_tac.
Qed.


Lemma is_op_refl x : is_op x x = true.
Proof. unfold is_op. apply bool_decide_eq_true_2. reflexivity. Qed.

Lemma is_op_distinct x y : x <> y -> forall op, is_op x op = true -> is_op y op = false.
Proof.
  intros Hne op H. unfold is_op in *. apply bool_decide_eq_true in H. subst op.
  apply bool_decide_eq_false_2. exact Hne.
Qed.

Lemma exclude_after_flag (w : World) (sched : list Choice) :
  exclude_waits_for_flag (trace (run sched (call setupReactNativeIntellisense w))).
Proof.
  intros pre c post Heq.
  pose proof (guarded_respects _ _ only_done
                (is_op_distinct configExcludeStep configFlagStep ltac:(discriminate))
                _ w sched intellisense_guards_exclude pre _ post Heq) as Hal.
  simpl in Hal. specialize (Hal (is_op_refl _)).
  destruct (status_of (is_op configFlagStep) c pre) eqn:Hs; try discriminate.
  destruct (status_done _ _ _ Hs) as (op & v & Hy & Hin).
  unfold is_op in Hy. apply bool_decide_eq_true in Hy. subst op.
  exists v. exact Hin.
Qed.




(** ** The mutation of the TypeScript configuration *)

Lemma exec_world t : forall c st, world (exec c t st) = world st.
Proof.
  induction t as [v|e|s k IH|n cb _ k IH|n k IH|k IH|op k _|k _|ch IHch k IHk];
    intros c st; simpl; try reflexivity.
  - rewrite IH. reflexivity.
  - rewrite IH. reflexivity.
  - apply IH.
  - apply IH.
  - rewrite IHk, IHch. reflexivity.
Qed.

Lemma exec_existsb (p : Event -> bool) t :
  (forall e, ~ is_settled e -> p e = false) ->
  forall c st, existsb p (trace (exec c t st)) = existsb p (trace st).
Proof.
  intros Hp.
  induction t as [v|e|s k IH|n cb _ k IH|n k IH|k IH|op k _|k _|ch IHch k IHk];
    intros c st; simpl; try reflexivity.
  - rewrite existsb_app. simpl. rewrite Hp by (intros []). rewrite !orb_false_r. reflexivity.
  - rewrite existsb_app. simpl. rewrite Hp by (intros []). rewrite !orb_false_r. reflexivity.
  - rewrite IH. simpl. rewrite existsb_app. simpl. rewrite Hp by (intros []).
    rewrite !orb_false_r. reflexivity.
  - rewrite IH. simpl. rewrite existsb_app. simpl. rewrite Hp by (intros []).
    rewrite !orb_false_r. reflexivity.
  - apply IH.
  - apply IH.
  - rewrite existsb_app. simpl. rewrite Hp by (intros []). rewrite !orb_false_r. reflexivity.
  - rewrite IHk, IHch. reflexivity.
Qed.

Lemma exec_config_after t c st doc :
  config_after (trace (exec c t st)) doc = config_after (trace st) doc.
Proof.
  unfold config_after. rewrite !exec_existsb; [reflexivity | |];
    intros [c' a|c' n|c' op|c' op o|c' o] H; try reflexivity; exfalso; apply H; exact I.
Qed.

Lemma in_list_In s l : in_list s l = true <-> In s l.
Proof.
  unfold in_list. rewrite existsb_exists. split.
  - intros (x & Hin & Heq). apply String.eqb_eq in Heq. subst x. exact Hin.
  - intros Hin. exists s. split; [exact Hin | apply String.eqb_refl].
Qed.

Lemma add_missing_twice l p : add_missing (add_missing l p) p = add_missing l p.
Proof.
  unfold add_missing. destruct (in_list p l) eqn:Hin; [rewrite Hin; reflexivity |].
  assert (H : in_list p (l ++ [p]) = true).
  { apply in_list_In. apply in_or_app. right. left. reflexivity. }
  rewrite H. reflexivity.
Qed.

Lemma addExcludePaths_twice doc :
  tsconfig_addExcludePaths ["node_modules"] (tsconfig_addExcludePaths ["node_modules"] doc) =
  tsconfig_addExcludePaths ["node_modules"] doc.
Proof.
  unfold tsconfig_addExcludePaths. simpl. rewrite add_missing_twice. reflexivity.
Qed.

Lemma config_after_settle tr c op o doc w :
  config_ops (NAwait op) ->
  tsconfig w = config_after tr doc ->
  tsconfig (effect op o w) = config_after (tr ++ [Settled c op o]) doc.
Proof.
  intros Hop Hw. unfold config_after in *. rewrite !existsb_app. simpl.
  destruct o as [v|e]; destruct op; simpl in *; rewrite ?orb_false_r;
    try exact Hw; subst; rewrite Hw, ?orb_true_r;
    destruct (existsb flag_written tr), (existsb exclusion_written tr);
    rewrite ?addExcludePaths_twice; reflexivity.
Qed.

Lemma config_inv_step doc ch st : config_inv doc st -> config_inv doc (step ch st).
Proof.
  intros [Hall Hw]. split; [apply step_all; exact Hall |].
  destruct ch as [i o|i|n v|n]; simpl.
  - destruct (pool st !! i) as [[c [op k|t]]|] eqn:Hi; try exact Hw.
    rewrite exec_world, exec_config_after. simpl.
    apply config_after_settle; [| exact Hw].
    apply (lookup_entry_all _ _ _ _ _ Hall Hi).
  - destruct (pool st !! i) as [[c [op k|t]]|] eqn:Hi; try exact Hw.
    rewrite exec_world, exec_config_after. exact Hw.
  - exact Hw.
  - destruct (find_command n (registry st)) as [cb|]; [| exact Hw].
    rewrite exec_world, exec_config_after. exact Hw.
Qed.

Lemma config_inv_run doc sched : forall st,
  config_inv doc st -> config_inv doc (run sched st).
Proof.
  induction sched as [|ch sched IH]; intros st H; [exact H |].
  rewrite run_cons. apply IH, config_inv_step, H.
Qed.

Lemma intellisense_config_ops : task_all config_ops setupReactNativeIntellisense.
Proof.
  unfold setupReactNativeIntellisense, promptChain, tsconfigChain, typingsChain,
    enableSalsa, installTypescriptNext, installChain. crush_all.
Qed.

Lemma existsb_In (p : Event -> bool) e tr : In e tr -> p e = true -> existsb p tr = true.
Proof. intros Hin Hp. apply existsb_exists. exists e. split; assumption. Qed.

Lemma config_after_completed (w : World) (sched : list Choice) :
  let st := run sched (call setupReactNativeIntellisense w) in
  mutation_completed (trace st) ->
  tsconfig (world st) = config_mutation (tsconfig w).
Proof.
  cbv zeta. intros (c & v & Hin).
  assert (Hinv : config_inv (tsconfig w)
                   (run sched (call setupReactNativeIntellisense w))).
  { apply config_inv_run. split.
    - apply exec_all; [apply intellisense_config_ops | split; constructor].
    - unfold call. rewrite exec_world, exec_config_after. reflexivity. }
  destruct Hinv as [_ ->]. unfold config_after, config_mutation.
  rewrite (existsb_In exclusion_written _ _ Hin eq_refl).
  apply in_split in Hin. destruct Hin as (pre & post & Heq).
  pose proof (guarded_respects _ _ only_done
                (is_op_distinct configExcludeStep configFlagStep ltac:(discriminate))
                _ w sched intellisense_guards_exclude pre _ post Heq) as Hal.
  simpl in Hal. specialize (Hal (is_op_refl _)).
  destruct (status_of (is_op configFlagStep) c pre) eqn:Hs; try discriminate.
  destruct (status_done _ _ _ Hs) as (op & v' & Hy & Hin').
  unfold is_op in Hy. apply bool_decide_eq_true in Hy. subst op.
  rewrite (existsb_In flag_written (Settled c configFlagStep (Fulfilled v'))).
  - reflexivity.
  - rewrite Heq. apply in_or_app. left. exact Hin'.
  - reflexivity.
Qed.

(** *** The chain runs to the end *)

Lemma exec_pool t : forall c st, exists new, pool (exec c t st) = pool st ++ new.
Proof.
  induction t as [v|e|s k IH|n cb _ k IH|n k IH|k IH|op k _|k _|ch IHch k IHk];
    intros c st; simpl.
  - exists []. simpl. rewrite app_nil_r. reflexivity.
  - exists []. simpl. rewrite app_nil_r. reflexivity.
  - destruct (IH c (emit (Did c s) st)) as (new & ->). exists new. reflexivity.
  - destruct (IH c (emit (Registered c n) (add_command n cb st))) as (new & ->).
    exists new. reflexivity.
  - apply IH.
  - apply IH.
  - eexists. reflexivity.
  - eexists. reflexivity.
  - destruct (IHk c (exec (nextChain st) ch (fresh_chain st))) as (n2 & ->).
    destruct (IHch (nextChain st) (fresh_chain st)) as (n1 & ->).
    exists (n1 ++ n2). simpl. rewrite app_assoc. reflexivity.
Qed.

Lemma exec_keeps_entry t c st i x :
  pool st !! i = Some x -> pool (exec c t st) !! i = Some x.
Proof.
  intros H. destruct (exec_pool t c st) as (new & ->).
  apply lookup_app_l_Some. exact H.
Qed.

Lemma exec_keeps_event t : forall c st e, In e (trace st) -> In e (trace (exec c t st)).
Proof.
  induction t as [v|e'|s k IH|n cb _ k IH|n k IH|k IH|op k _|k _|ch IHch k IHk];
    intros c st e H; simpl;
    try (apply in_or_app; left; exact H).
  - apply IH. simpl. apply in_or_app. left. exact H.
  - apply IH. simpl. apply in_or_app. left. exact H.
  - apply IH, H.
  - apply IH, H.
  - exact H.
  - apply IHk, IHch, H.
Qed.

Lemma step_keeps_event ch st e : In e (trace st) -> In e (trace (step ch st)).
Proof.
  intros H. destruct ch as [i o|i|n v|n]; simpl.
  - destruct (pool st !! i) as [[c [op k|t]]|]; try exact H.
    apply exec_keeps_event. simpl. apply in_or_app. left. exact H.
  - destruct (pool st !! i) as [[c [op k|t]]|]; try exact H.
    apply exec_keeps_event. exact H.
  - exact H.
  - destruct (find_command n (registry st)); [| exact H].
    apply exec_keeps_event. exact H.
Qed.

Lemma lookup_without {A} (l : list A) : forall i j x,
  l !! i = Some x -> i <> j -> exists i', (take j l ++ drop (S j) l) !! i' = Some x.
Proof.
  induction l as [|a l IH]; intros [|i] [|j] x H Hne; simpl in *;
    try discriminate; try congruence.
  - exists 0. exact H.
  - exists i. exact H.
  - destruct (IH i j x H ltac:(congruence)) as (i' & Hi'). exists (S i'). exact Hi'.
Qed.

(** A step either leaves a pending entry in the pool or is the step
    that takes it up. *)
Lemma step_entry ch st i c en :
  pool st !! i = Some (c, en) ->
  (exists i', pool (step ch st) !! i' = Some (c, en)) \/
  (exists op k o, en = Waiting op k /\
     step ch st =
     exec c (k o) (emit (Settled c op o) (with_world (effect op o) (drop_entry i st)))) \/
  (exists t, en = Ready t /\ step ch st = exec c t (drop_entry i st)).
Proof.
  intros H. destruct ch as [j o|j|n v|n]; simpl.
  - destruct (decide (j = i)) as [->|Hne].
    + rewrite H. destruct en as [op k|t].
      * right. left. exists op, k, o. split; reflexivity.
      * left. exists i. exact H.
    + destruct (pool st !! j) as [[c' [op k|t]]|] eqn:Hj;
        try (left; exists i; exact H).
      left. destruct (lookup_without (pool st) i j _ H ltac:(congruence)) as (i' & Hi').
      exists i'. apply exec_keeps_entry. exact Hi'.
  - destruct (decide (j = i)) as [->|Hne].
    + rewrite H. destruct en as [op k|t].
      * left. exists i. exact H.
      * right. right. exists t. split; reflexivity.
    + destruct (pool st !! j) as [[c' [op k|t]]|] eqn:Hj;
        try (left; exists i; exact H).
      left. destruct (lookup_without (pool st) i j _ H ltac:(congruence)) as (i' & Hi').
      exists i'. apply exec_keeps_entry. exact Hi'.
  - left. exists i. exact H.
  - left. destruct (find_command n (registry st)); [| exists i; exact H].
    exists i. apply exec_keeps_entry. exact H.
Qed.

Lemma lookup_last_entry (l : list (ChainId * Entry)) x : (l ++ [x]) !! length l = Some x.
Proof. apply list_lookup_middle. reflexivity. Qed.

Lemma flag_settles i c k o st :
  pool st !! i = Some (c, Waiting configFlagStep k) ->
  (forall v, k (Fulfilled v) = Defer excludeTurn) ->
  let st' := step (Complete i o) st in
  if fulfilled o then exclude_ready st' else config_step_rejected (trace st').
Proof.
  intros H Hk. cbv zeta. simpl. rewrite H. destruct o as [v|e]; simpl fulfilled.
  - rewrite Hk. simpl. eexists _, c. apply lookup_last_entry.
  - exists c, configFlagStep, e. split; [left; reflexivity |].
    apply exec_keeps_event. simpl. apply in_or_app. right. left. reflexivity.
Qed.

Lemma exclude_turn_runs i c st :
  pool st !! i = Some (c, Ready excludeTurn) -> exclude_pending (step (Turn i) st).
Proof.
  intros H. simpl. rewrite H. simpl. eexists _, c, _. apply lookup_last_entry.
Qed.

Lemma exclude_settles i c k o st :
  pool st !! i = Some (c, Waiting configExcludeStep k) ->
  let st' := step (Complete i o) st in
  if fulfilled o then mutation_completed (trace st')
  else config_step_rejected (trace st').
Proof.
  intros H. cbv zeta. simpl. rewrite H. destruct o as [v|e]; simpl fulfilled.
  - exists c, v. apply exec_keeps_event. simpl. apply in_or_app. right. left. reflexivity.
  - exists c, configExcludeStep, e. split; [right; reflexivity |].
    apply exec_keeps_event. simpl. apply in_or_app. right. left. reflexivity.
Qed.

Lemma mutation_stage_step ch st : mutation_stage st -> mutation_stage (step ch st).
Proof.
  intros [(i & c & k & H & Hk) | [(i & c & H) | [(i & c & k & H) | [H | H]]]].
  - destruct (step_entry ch st i c _ H)
      as [(i' & H') | [(op & k' & o & E & ->) | (t & E & _)]]; [| | discriminate].
    + left. exists i', c, k. split; assumption.
    + injection E as <- <-.
      pose proof (flag_settles i c k o st H Hk) as Hs. cbv zeta in Hs.
      simpl in Hs. rewrite H in Hs. destruct o; simpl in Hs.
      * right. left. exact Hs.
      * do 4 right. exact Hs.
  - destruct (step_entry ch st i c _ H)
      as [(i' & H') | [(op & k' & o & E & _) | (t & E & ->)]]; [| discriminate |].
    + right. left. exists i', c. exact H'.
    + injection E as <-.
      pose proof (exclude_turn_runs i c st H) as Hs. simpl in Hs. rewrite H in Hs.
      right. right. left. exact Hs.
  - destruct (step_entry ch st i c _ H)
      as [(i' & H') | [(op & k' & o & E & ->) | (t & E & _)]]; [| | discriminate].
    + right. right. left. exists i', c, k. exact H'.
    + injection E as <- <-.
      pose proof (exclude_settles i c k o st H) as Hs. cbv zeta in Hs.
      simpl in Hs. rewrite H in Hs. destruct o; simpl in Hs.
      * do 3 right. left. exact Hs.
      * do 4 right. exact Hs.
  - do 3 right. left. destruct H as (c & v & Hin). exists c, v.
    apply step_keeps_event. exact Hin.
  - do 4 right. destruct H as (c & op & e & Hop & Hin). exists c, op, e.
    split; [exact Hop | apply step_keeps_event; exact Hin].
Qed.

Lemma mutation_stage_run sched : forall st,
  mutation_stage st -> mutation_stage (run sched st).
Proof.
  induction sched as [|ch sched IH]; intros st H; [exact H |].
  rewrite run_cons. apply IH, mutation_stage_step, H.
Qed.

(** The call leaves the chain waiting for the flag step. *)
Lemma intellisense_starts_mutation (w : World) :
  let st := call setupReactNativeIntellisense w in
  flag_pending st /\ mutation_begun (trace st).
Proof.
  cbv zeta. unfold call. rewrite exec_setupReactNativeIntellisense.
  change (world (boot w)) with w. destruct (flag_set w); simpl.
  - split.
    + exists 0, 1. eexists. split; [reflexivity |]. intros v. reflexivity.
    + exists 1. left. reflexivity.
  - split.
    + exists 1, 2. eexists. split; [reflexivity |]. intros v. reflexivity.
    + exists 2. right. left. reflexivity.
Qed.

Lemma mutation_begun_run (w : World) (sched : list Choice) :
  mutation_begun (trace (run sched (call setupReactNativeIntellisense w))).
Proof.
  destruct (intellisense_starts_mutation w) as [_ (c & Hin)]. exists c.
  revert Hin. generalize (call setupReactNativeIntellisense w).
  induction sched as [|ch sched IH]; intros st Hin; [exact Hin |].
  rewrite run_cons. apply IH, step_keeps_event, Hin.
Qed.

(** From every stage short of a failure the chain can be taken to the
    end: the pending step is fulfilled, the callback gets its turn, the
    next step is fulfilled. *)
Lemma mutation_can_complete st :
  mutation_stage st ->
  config_step_rejected (trace st) \/
  exists rest, mutation_completed (trace (run rest st)).
Proof.
  assert (H3 : forall s, exclude_pending s ->
                 exists rest, mutation_completed (trace (run rest s))).
  { intros s (i & c & k & H). exists [Complete i (Fulfilled VUndefined)].
    exact (exclude_settles i c k (Fulfilled VUndefined) s H). }
  assert (H2 : forall s, exclude_ready s ->
                 exists rest, mutation_completed (trace (run rest s))).
  { intros s (i & c & H).
    destruct (H3 _ (exclude_turn_runs i c s H)) as (rest & Hrest).
    exists (Turn i :: rest). rewrite run_cons. exact Hrest. }
  intros [(i & c & k & H & Hk) | [H | [H | [H | H]]]].
  - right.
    destruct (H2 _ (flag_settles i c k (Fulfilled VUndefined) st H Hk)) as (rest & Hrest).
    exists (Complete i (Fulfilled VUndefined) :: rest). rewrite run_cons. exact Hrest.
  - right. apply H2, H.
  - right. apply H3, H.
  - right. exists []. exact H.
  - left. exact H.
Qed.

Lemma intellisense_mutation_completes (w : World) (sched : list Choice) :
  let st := run sched (call setupReactNativeIntellisense w) in
  config_step_rejected (trace st) \/
  exists rest,
    mutation_completed (trace (run rest st)) /\
    tsconfig (world (run rest st)) = config_mutation (tsconfig w).
Proof.
  cbv zeta.
  destruct (mutation_can_complete (run sched (call setupReactNativeIntellisense w)))
    as [H | (rest & H)].
  - apply mutation_stage_run. left. apply intellisense_starts_mutation.
  - left. exact H.
  - right. exists rest. split; [exact H |].
    rewrite <- run_app in *. apply config_after_completed. exact H.
Qed.

(** C8.  The mutation of the TypeScript configuration sets the
    allow-JavaScript flag first and edits the exclusion list only after
    that has succeeded; once the second step has succeeded the
    document is the original with the flag set to true and
    [node_modules] appended to the exclusion list: a list [a] becomes
    [a, node_modules], an entry that is already there is not repeated,
    no entry is removed, and the other fields are left as they were.
    The function does perform the mutation: every run has started the
    flag step, and from every state it reaches, unless one of the two
    steps has failed, the chain can be taken to the end, where the
    document is the mutated one. *)
Theorem config_mutation_additive (w : World) (sched : list Choice) (doc : TsConfig) :
  let st := run sched (call setupReactNativeIntellisense w) in
  exclude_waits_for_flag (trace st) /\
  (mutation_completed (trace st) ->
   tsconfig (world st) = config_mutation (tsconfig w)) /\
  allowJs (config_mutation doc) = Some true /\
  otherFields (config_mutation doc) = otherFields doc /\
  (exclude doc = ["a"] -> exclude (config_mutation doc) = ["a"; "node_modules"]) /\
  (In "node_modules" (exclude doc) -> exclude (config_mutation doc) = exclude doc) /\
  (~ In "node_modules" (exclude doc) ->
   exclude (config_mutation doc) = exclude doc ++ ["node_modules"]) /\
  (forall x, In x (exclude doc) -> In x (exclude (config_mutation doc))) /\
  mutation_begun (trace st) /\
  (config_step_rejected (trace st) \/
   exists rest,
     mutation_completed (trace (run rest st)) /\
     tsconfig (world (run rest st)) = config_mutation (tsconfig w)).
Proof.
  cbv zeta. split; [apply exclude_after_flag |].
  split; [apply config_after_completed |].
  split; [reflexivity |]. split; [reflexivity |].
  unfold config_mutation at 1 2 3 4, tsconfig_addExcludePaths, tsconfig_allowJs, add_missing.
  simpl.
  split; [intros ->; reflexivity |].
  split; [| split; [| split; [| split]]].
  - intros Hin. apply in_list_In in Hin. rewrite Hin. reflexivity.
  - intros Hnin. destruct (in_list "node_modules" (exclude doc)) eqn:Hin; [| reflexivity].
    apply in_list_In in Hin. contradiction.
  - intros x Hx. destruct (in_list "node_modules" (exclude doc)); [exact Hx |].
    apply in_or_app. left. exact Hx.
  - apply mutation_begun_run.
  - apply intellisense_mutation_completes.
Qed.

(** ** Activation as a whole *)

Ltac program :=
  unfold activate, registerCommand, trigger, detectionChain, setupReactNativeDebugger,
    setupReactNativeIntellisense, debuggerChain, promptChain, tsconfigChain,
    typingsChain, enableSalsa, installTypescriptNext, installChain, salsaPrompt.

Ltac cases_of_goal :=
  match goal with
  | |- context [match ?x with Fulfilled _ => _ | Rejected _ => _ end] => destruct x
  | |- context [if ?x then _ else _] => destruct x
  end.

Ltac gate_tac :=
  repeat first
    [ exact I
    | reflexivity
    | discriminate
    | split
    | progress intros
    | cases_of_goal
    | progress cbn [gated bind try_ then_ catch_ done_ await getenv js_or
                    orb andb negb fulfilled
                    project_detected project_only unconditional accepted opt_in_only
                    rejected_in stub_step intellisense_step
                    is_error_message is_uncaught] ].

Lemma activate_known_ops : task_all known_ops activate.
Proof. program. crush_all. Qed.

Lemma known_settled w sched c op o :
  In (Settled c op o) (trace (run sched (call activate w))) -> known_ops (NAwait op).
Proof.
  intros Hin.
  pose proof (call_run_trace known_ops activate w sched activate_known_ops) as Hall.
  rewrite Forall_forall in Hall. apply list_elem_of_In in Hin.
  apply (Hall _ Hin).
Qed.

Lemma in_prefix (x : Event) pre e post : In x pre -> In x (pre ++ e :: post).
Proof. intros H. apply in_or_app. left. exact H. Qed.

Lemma activate_gated_detection : gated project_detected project_only false activate.
Proof. program. gate_tac. Qed.

Lemma activate_gated_opt_in : gated accepted opt_in_only false activate.
Proof. program. gate_tac. Qed.

Lemma activate_gated_error_message :
  gated (rejected_in stub_step) is_error_message false activate.
Proof. program. gate_tac. Qed.

Lemma activate_gated_uncaught :
  gated (rejected_in intellisense_step) is_uncaught false activate.
Proof. program. gate_tac. Qed.

Lemma strict_eq_string v s : strict_eq v (VString s) = true -> v = VString s.
Proof.
  destruct v as [|b|x]; simpl; try discriminate.
  intros H. apply String.eqb_eq in H. subst x. reflexivity.
Qed.

(** X1.  Nothing that is meant for React Native projects only (the
    stub, the prompt, the configuration and typings work, the
    installation, the directory manager, any notification) happens in
    a run of [activate] before the applicability check of the
    workspace root has been fulfilled with a truthy value. *)
Theorem activate_provisions_only_after_detection (w : World) (sched : list Choice) :
  only_after project_only detection_succeeded (trace (run sched (call activate w))).
Proof.
  intros pre e post n Heq Hn Hneeds.
  destruct (gated_after project_detected project_only activate w sched pre e post n
              activate_gated_detection Heq Hn Hneeds) as (c & op & o & Hin & Hu).
  exists (Settled c op o). split; [exact Hin |].
  assert (Hk : known_ops (NAwait op)).
  { apply (known_settled w sched c op o). rewrite Heq. apply in_prefix, Hin. }
  destruct op; try discriminate. destruct o as [v|x]; try discriminate.
  simpl in *. split; [exact Hk | exact Hu].
Qed.

(** X2.  In a run of [activate] a child process is started, and the
    restart notice is shown, only after the user has answered the
    confirmation prompt with [Yes]; dismissing the prompt, or a failing
    prompt, never leads to either. *)
Theorem opt_in_only_after_yes (w : World) (sched : list Choice) :
  only_after opt_in_only prompt_accepted (trace (run sched (call activate w))).
Proof.
  intros pre e post n Heq Hn Hneeds.
  destruct (gated_after accepted opt_in_only activate w sched pre e post n
              activate_gated_opt_in Heq Hn Hneeds) as (c & op & o & Hin & Hu).
  exists (Settled c op o). split; [exact Hin |].
  assert (Hk : known_ops (NAwait op)).
  { apply (known_settled w sched c op o). rewrite Heq. apply in_prefix, Hin. }
  destruct op; try discriminate. destruct o as [v|x]; try discriminate.
  simpl in *. split; [exact Hk | apply strict_eq_string, Hu].
Qed.

(** X3.  How failures surface in a run of [activate]: an error
    notification is shown only after a step of the debugger chain
    (the directory or the stub write) was rejected, and an uncaught
    exception is raised only after a step of the intellisense chains
    was rejected.  A failing applicability check and a failing prompt
    lead to neither. *)
Theorem activate_failure_routing (w : World) (sched : list Choice) :
  let tr := trace (run sched (call activate w)) in
  only_after is_error_message (step_failed stub_step) tr /\
  only_after is_uncaught (step_failed intellisense_step) tr.
Proof.
  cbv zeta. split; intros pre e post n Heq Hn Hneeds.
  - destruct (gated_after (rejected_in stub_step) is_error_message activate w sched
                pre e post n activate_gated_error_message Heq Hn Hneeds)
      as (c & op & o & Hin & Hu).
    exists (Settled c op o). split; [exact Hin |].
    unfold rejected_in in Hu. apply andb_true_iff in Hu. destruct Hu as [Hs Ho].
    destruct o; [discriminate | exact Hs].
  - destruct (gated_after (rejected_in intellisense_step) is_uncaught activate w sched
                pre e post n activate_gated_uncaught Heq Hn Hneeds)
      as (c & op & o & Hin & Hu).
    exists (Settled c op o). split; [exact Hin |].
    unfold rejected_in in Hu. apply andb_true_iff in Hu. destruct Hu as [Hs Ho].
    destruct o; [discriminate | exact Hs].
Qed.

(** ** The order within each chain, with everything else going on *)

Lemma begins_after_sound (isX isY : AsyncOp -> bool) t w sched :
  (forall op, isX op = true -> isY op = false) ->
  guarded isX isY only_done Fresh t ->
  begins_after isX isY (trace (run sched (call t w))).
Proof.
  intros XY Hg pre c op post Heq Hx.
  pose proof (guarded_respects isX isY only_done XY t w sched Hg pre _ post Heq) as Hal.
  simpl in Hal. specialize (Hal Hx).
  destruct (status_of isY c pre) eqn:Hs; try discriminate.
  destruct (status_done _ _ _ Hs) as (op' & v & Hy & Hin).
  exists op', v. split; [exact Hy | exact Hin].
Qed.

Ltac order_tac :=
  repeat first
    [ exact I
    | reflexivity
    | discriminate
    | split
    | progress intros
    | cases_of_goal
    | progress cbn [guarded began settled only_done fulfilled andb
                    bind try_ then_ catch_ done_ await getenv js_or
                    is_directory_step is_stub_write is_flag_step is_exclude_step
                    is_probe is_settings_write] ].

Lemma activate_guards_stub_write :
  guarded is_stub_write is_directory_step only_done Fresh activate.
Proof. program. order_tac. Qed.

Lemma activate_guards_exclude :
  guarded is_exclude_step is_flag_step only_done Fresh activate.
Proof. program. order_tac. Qed.

Lemma activate_guards_settings_write :
  guarded is_settings_write is_probe only_done Fresh activate.
Proof. program. order_tac. Qed.

(** X4.  The orders the chains keep on their own are kept in a whole
    activation, with the other chains, the commands and changes of the
    environment interleaved in any way: on its chain, the stub is
    written only after the directory step has been fulfilled, the
    exclusion list is edited only after the flag has been set, and the
    toolchain path is written to the settings only after the probe of
    that installation has been fulfilled. *)
Theorem activation_keeps_chain_orders (w : World) (sched : list Choice) :
  let tr := trace (run sched (call activate w)) in
  begins_after is_stub_write is_directory_step tr /\
  begins_after is_exclude_step is_flag_step tr /\
  begins_after is_settings_write is_probe tr.
Proof.
  cbv zeta. split; [| split].
  - apply begins_after_sound; [intros []; simpl; congruence |].
    apply activate_guards_stub_write.
  - apply begins_after_sound; [intros []; simpl; congruence |].
    apply activate_guards_exclude.
  - apply begins_after_sound; [intros []; simpl; congruence |].
    apply activate_guards_settings_write.
Qed.

(** ** How often things happen *)

Ltac budget_tac :=
  repeat first
    [ exact I
    | lia
    | match goal with
      | |- ex _ =>
        first
          [ exists 0; split; [lia | split; [solve [budget_tac] |]]
          | exists 1; split; [lia | split; [solve [budget_tac] |]]
          | exists 2; split; [lia | split; [solve [budget_tac] |]]
          | exists 3; split; [lia | split; [solve [budget_tac] |]]
          | exists 4; split; [lia | split; [solve [budget_tac] |]] ]
      end
    | match goal with |- _ /\ _ => split end
    | progress intros
    | cases_of_goal
    | progress cbn [within counts Nat.sub bind try_ then_ catch_ done_ await getenv
                    js_or] ].

Lemma activate_within (k : Kind) : within (counts k) (activation_limit k) activate.
Proof. destruct k; program; cbn [activation_limit]; budget_tac. Qed.

(** X5.  One activation does a bounded number of things of each kind,
    however its chains are scheduled and whatever the collaborators
    answer: one applicability check, one prompt, one error
    notification, one restart notice, one child process and one
    directory manager at most; at most two probes and two settings
    writes (the installation can be entered from the typings chain
    and from the accepted prompt); at most three copies and three
    uncaught exceptions; four registrations. *)
Theorem activation_within_limits (k : Kind) (w : World) (sched : list Choice) :
  occurrences k (trace (run sched (call activate w))) <= activation_limit k.
Proof. apply within_sound, activate_within. Qed.

(** ** The life of an activation *)

Lemma quiet_idle e : event_ok quiet e -> idle_event e.
Proof.
  destruct e as [c s|c n|c op|c op o|c o]; simpl; unfold idle_event; simpl;
    try tauto.
  destruct s; simpl; tauto.
Qed.

Lemma four_commands_quiet : Forall (fun nc => task_all quiet (snd nc)) four_commands.
Proof. repeat constructor. Qed.

Lemma four_commands_no_detection :
  Forall (fun nc => task_all no_detection (snd nc)) four_commands.
Proof. repeat constructor. Qed.

Lemma find_four_commands n cb :
  find_command n four_commands = Some cb -> exists m, cb = trigger m.
Proof.
  unfold four_commands. simpl.
  repeat match goal with
         | |- context [if ?b then _ else _] => destruct b
         end;
    intros H; inversion H; eexists; reflexivity.
Qed.

Lemma detection_callback_no_detection v :
  task_all no_detection
    (if truthy v then
       setupReactNativeDebugger ;;
       setupReactNativeIntellisense ;;
       Act NewReactDirManager
         (Act (PushSubscription ReactDirManagerInstance) (Ret VUndefined))
     else Ret VUndefined).
Proof. program. crush_all. Qed.

Lemma lifecycle_call w : lifecycle w (call activate w).
Proof.
  left. split; [reflexivity | split; [reflexivity | split]];
    repeat constructor.
Qed.

Lemma lifecycle_step w ch st : lifecycle w st -> lifecycle w (step ch st).
Proof.
  intros [(Hpool & Hreg & Hidle & Hnone) | [[Hq Hidle] | [Hnd Hres]]].
  - destruct ch as [i o|i|n v|n]; unfold step.
    + rewrite Hpool. destruct i as [|i];
        [| left; split; [exact Hpool | split; [exact Hreg | split; assumption]]].
      cbn [call exec activate registerCommand detectionChain then_ await bind
           boot pool emit enqueue fresh_chain add_command app nextChain
           lookup list_lookup].
      destruct o as [v|e]; cbn [bind exec].
      * destruct (truthy v) eqn:Hv.
        -- pose proof (detection_callback_no_detection v) as Hcb. rewrite Hv in Hcb.
           right. right. split; [split |].
           ++ simpl. rewrite Hpool. constructor; [exact Hcb | constructor].
           ++ simpl. rewrite Hreg. apply four_commands_no_detection.
           ++ simpl. apply Forall_app. split.
              ** eapply Forall_impl; [exact Hnone |]. simpl. intros e He o Ho. congruence.
              ** repeat constructor. simpl. intros o Ho. inversion Ho; subst. exact Hv.
        -- right. left. split; [split |].
           ++ simpl. rewrite Hpool. constructor; [exact I | constructor].
           ++ simpl. rewrite Hreg. apply four_commands_quiet.
           ++ simpl. apply Forall_app. split; [exact Hidle | repeat constructor].
      * right. left. split; [split |].
        -- simpl. rewrite Hpool. simpl. constructor.
        -- simpl. rewrite Hreg. apply four_commands_quiet.
        -- simpl. repeat (apply Forall_app; split);
             first [exact Hidle | repeat constructor].
    + rewrite Hpool. destruct i as [|i];
        left; (split; [exact Hpool | split; [exact Hreg | split; assumption]]).
    + left. split; [exact Hpool | split; [exact Hreg | split; assumption]].
    + rewrite Hreg. destruct (find_command n four_commands) as [cb|] eqn:Hf;
        [| left; split; [exact Hpool | split; [exact Hreg | split; assumption]]].
      destruct (find_four_commands n cb Hf) as (m & ->).
      left. unfold trigger. simpl. split; [exact Hpool | split; [exact Hreg | split]].
      * repeat (apply Forall_app; split); first [exact Hidle | repeat constructor].
      * repeat (apply Forall_app; split); first [exact Hnone | repeat constructor].
  - right. left. split; [apply step_all; exact Hq |].
    destruct (step_trace quiet ch st Hq) as (new & -> & Hnew).
    apply Forall_app. split; [exact Hidle |].
    eapply Forall_impl; [exact Hnew | apply quiet_idle].
  - right. right. split; [apply step_all; exact Hnd |].
    destruct (step_trace no_detection ch st Hnd) as (new & -> & Hnew).
    apply Forall_app. split; [exact Hres |].
    eapply Forall_impl; [exact Hnew |].
    intros e He o Ho. destruct e as [c s|c n|c op|c op o'|c o']; try discriminate.
    destruct op; try discriminate. destruct He.
Qed.

Lemma lifecycle_run w sched : forall st, lifecycle w st -> lifecycle w (run sched st).
Proof.
  induction sched as [|ch sched IH]; intros st Hst; [exact Hst |].
  rewrite run_cons. apply IH, lifecycle_step, Hst.
Qed.

(** X6.  When the applicability check answers with a falsy value, or
    fails, the activation stays at what it does for every folder: the
    trace holds the registrations, the check and the calls of the
    commands the user ran and nothing else (no stub, no prompt, no
    configuration or typings work, no notification), and all that can
    still happen is a command calling the handler. *)
Theorem activate_idle_when_not_applicable
    (w : World) (sched : list Choice) (c : ChainId) (root : string) (o : Outcome) :
  In (Settled c (IsReactNativeProject root) o) (trace (run sched (call activate w))) ->
  applicable o = false ->
  Forall idle_event (trace (run sched (call activate w))) /\
  state_all quiet (run sched (call activate w)).
Proof.
  intros Hin Hno.
  destruct (lifecycle_run w sched _ (lifecycle_call w))
    as [(_ & _ & _ & Hnone) | [[Hq Hidle] | [_ Hres]]].
  - rewrite Forall_forall in Hnone. apply list_elem_of_In in Hin.
    specialize (Hnone _ Hin). discriminate.
  - split; assumption.
  - rewrite Forall_forall in Hres. apply list_elem_of_In in Hin.
    specialize (Hres _ Hin o eq_refl). congruence.
Qed.

(** ** The course of [enableSalsa] *)

Lemma enableSalsa_enters (w : World) :
  flag_set w = false ->
  call enableSalsa w = salsa_state (salsa_command (platform w)) (Installing Probing) w.
Proof.
  intros Hunset. unfold salsa_state, call. rewrite run_nil, exec_enableSalsa.
  change (world (boot w)) with w. rewrite Hunset.
  unfold salsaBody, installTypescriptNext, js_or.
  cbn [negb exec bind then_ done_ try_ getenv].
  match goal with |- context [if ?b then _ else _] => destruct b end; reflexivity.
Qed.

Ltac salsa_unfold :=
  cbv [salsa_state salsa_schedule salsa_next settled_stage salsaBody
       salsa_script salsa_record_part uncaught_part
       install_schedule install_next installChain app].

Ltac salsa_sim := repeat (use_truthy; salsa_unfold; sim_one).

Lemma salsa_step (command : string) (sp : SalsaStage) (w : World) (ch : Choice) :
  salsa_stage_ok sp ->
  step ch (salsa_state command sp w) =
  salsa_state command (salsa_next sp ch) (world_after ch w) /\
  salsa_stage_ok (salsa_next sp ch).
Proof.
  intros Hok. destruct sp as [ph|ph].
  - destruct ch as [i o|i|n v|n].
    + destruct i as [|i]; destruct ph; simpl in Hok; split_outcomes;
        (split; [salsa_sim; reflexivity | simpl; auto]).
    + destruct i as [|i]; destruct ph as [|e|p|p|p|p e|p v|p|p v|p r|p v r];
        simpl in Hok; split_outcomes;
        try (split; [salsa_sim; reflexivity | simpl; auto]).
      destruct (truthy p) eqn:Hp;
        (split; [salsa_sim; reflexivity | simpl; rewrite Hp; simpl; auto]).
    + destruct ph; simpl in Hok; split_outcomes;
        (split; [salsa_sim; rewrite ?set_env_effect; reflexivity | exact Hok]).
    + destruct ph; simpl in Hok; split_outcomes;
        (split; [salsa_sim; reflexivity | exact Hok]).
  - destruct Hok as [Hok Hs].
    destruct ph; try discriminate Hs; simpl in Hok; split_outcomes;
      destruct ch as [[|i] o|[|i]|nm val|nm];
      (split; [salsa_sim; rewrite ?set_env_effect; reflexivity | simpl; auto]).
Qed.

Lemma salsa_reach (command : string) (sched : list Choice) : forall sp w,
  salsa_stage_ok sp ->
  exists sp' w',
    run sched (salsa_state command sp w) = salsa_state command sp' w' /\
    salsa_stage_ok sp'.
Proof.
  induction sched as [|ch sched IH]; intros sp w Hok.
  - exists sp, w. split; [reflexivity | exact Hok].
  - rewrite run_cons. destruct (salsa_step command sp w ch Hok) as [-> Hok'].
    apply IH, Hok'.
Qed.

Ltac salsa_stage probe copy record rest :=
  exists probe, copy, record; split; [|split];
  [ eexists; salsa_sim; simpl; reflexivity
  | salsa_sim; simpl; first [discriminate | intros _; reflexivity]
  | exists rest; salsa_sim; reflexivity ].

(** X7.  With the flag unset, every run of [enableSalsa] is an initial
    part of one course: the child process is started with the command
    line of the platform before anything else, the installation
    follows on a chain of its own, the restart notice is shown once,
    and only after the settings write has been fulfilled, and a
    rejected probe, copy or settings write is rethrown as an uncaught
    exception instead, with no notice.  The run is the whole course
    once nothing is pending, and it can always be brought there. *)
Theorem enableSalsa_course (w : World) (sched : list Choice) :
  flag_set w = false ->
  let st := run sched (call enableSalsa w) in
  exists probe copy record,
    trace st `prefix_of` salsa_script (salsa_command (platform w)) probe copy record /\
    (pool st = [] ->
     trace st = salsa_script (salsa_command (platform w)) probe copy record) /\
    (exists rest, pool (run rest st) = []).
Proof.
  intros Hunset. cbv zeta. rewrite (enableSalsa_enters w Hunset).
  generalize (salsa_command (platform w)). intros command.
  destruct (salsa_reach command sched (Installing Probing) w I) as (sp & w' & -> & Hok).
  destruct sp as [ph|ph].
  - destruct ph as [|e|p|p|p|p e|p v|p|p v|p r|p v r]; simpl in Hok; split_outcomes;
      pose (u := Fulfilled VUndefined);
      pose (x := Rejected {| message := EmptyString |}).
    + salsa_stage u u u [Complete 0 x; Turn 0].
    + salsa_stage (Rejected e) u u [Turn 0].
    + destruct (truthy p) eqn:Hp.
      * salsa_stage (Fulfilled p) u u [Turn 0; Turn 0; Complete 0 x; Turn 0].
      * salsa_stage (Fulfilled p) u u [Turn 0; Complete 0 x; Turn 0].
    + salsa_stage (Fulfilled p) u u [Turn 0; Complete 0 x; Turn 0].
    + salsa_stage (Fulfilled p) u u [Complete 0 x; Turn 0].
    + salsa_stage (Fulfilled p) (Rejected e) u [Turn 0].
    + salsa_stage (Fulfilled p) (Fulfilled v) u [Turn 0; Complete 0 x; Turn 0].
    + salsa_stage (Fulfilled p) u u [Complete 0 x; Turn 0].
    + salsa_stage (Fulfilled p) (Fulfilled v) u [Complete 0 x; Turn 0].
    + salsa_stage (Fulfilled p) u (Fulfilled v) [Turn 0].
    + salsa_stage (Fulfilled p) u (Rejected e) [Turn 0].
    + salsa_stage (Fulfilled p) (Fulfilled v) (Fulfilled v0) [Turn 0].
    + salsa_stage (Fulfilled p) (Fulfilled v) (Rejected e) [Turn 0].
  - destruct Hok as [Hok Hs].
    destruct ph as [|e|p|p|p|p e|p v|p|p v|p r|p v r]; try discriminate Hs;
      simpl in Hok; split_outcomes; pose (u := Fulfilled VUndefined).
    + salsa_stage (Rejected e) u u (@nil Choice).
    + salsa_stage (Fulfilled p) (Rejected e) u (@nil Choice).
    + salsa_stage (Fulfilled p) u (Fulfilled v) (@nil Choice).
    + salsa_stage (Fulfilled p) u (Rejected e) (@nil Choice).
    + salsa_stage (Fulfilled p) (Fulfilled v) (Fulfilled v0) (@nil Choice).
    + salsa_stage (Fulfilled p) (Fulfilled v) (Rejected e) (@nil Choice).
Qed.

(** ** Two installations at once *)

Lemma exec_try_install c h st :
  exec c (try_ installTypescriptNext h) st = exec c (try_ installChain h) st.
Proof.
  unfold installTypescriptNext, js_or. cbn [exec bind try_ getenv].
  match goal with |- context [if ?b then _ else _] => destruct b end; reflexivity.
Qed.

Lemma exec_try_install_then c f h st :
  exec c (try_ (bind installTypescriptNext f) h) st =
  exec c (try_ (bind installChain f) h) st.
Proof.
  unfold installTypescriptNext, js_or. cbn [exec bind try_ getenv].
  match goal with |- context [if ?b then _ else _] => destruct b end; reflexivity.
Qed.

Ltac use_facts :=
  repeat match goal with
         | H : ?l = true |- context [?l] => rewrite H
         | H : ?l = false |- context [?l] => rewrite H
         end.

Ltac sim_exec :=
  match goal with
  | |- context [exec ?c ?t (Build_State ?a ?b ?d ?e ?f)] =>
    let s := eval cbn [exec bind try_ then_ catch_ done_ await getenv js_or negb]
             in (exec c t (Build_State a b d e f)) in
    let s := tidy_state s in
    progress change (exec c t (Build_State a b d e f)) with s
  end.

Ltac pool_lookup :=
  match goal with
  | |- context [@lookup nat ?A (list ?B) ?inst ?i ?l] =>
    let r := eval cbv [lookup list_lookup] in (@lookup nat A (list B) inst i l) in
    progress change (@lookup nat A (list B) inst i l) with r; cbv beta iota
  end.

Ltac accept_yes :=
  try (change (strict_eq (VString "Yes") (VString "Yes")) with true; cbv iota).

(** One choice at a time, with [enableSalsa] and
    [installTypescriptNext] entered through their equations. *)
Ltac activation_sim Hunset :=
  repeat (cbn [effect salsaPrompt truthy negb env platform]; use_facts;
          first
            [ rewrite exec_enableSalsa; cbn [world]; rewrite Hunset; cbn [negb]
            | progress change (done_ (then_ installTypescriptNext ?f)) with
                (try_ (bind installTypescriptNext (fun v => Defer (f v)))
                      (fun e => Defer (Act (UncaughtException e) (Ret VUndefined))))
            | rewrite exec_try_install_then; unfold installChain
            | rewrite exec_try_install; unfold installChain
            | sim_exec
            | sim_one
            | pool_lookup ];
          accept_yes).

Lemma overlap_state (w : World) :
  flag_set w = false ->
  exists k2 k4 k6 k5 w',
    run overlap_schedule (call activate w) =
    {| world := w';
       registry := four_commands;
       trace := overlap_trace (salsa_command (platform w));
       pool := [ (2, Waiting (EnsureDirectory vscodeFolder) k2);
                 (4, Waiting (AllowJs true) k4);
                 (6, Waiting toolchainCopy k6);
                 (5, Waiting toolchainCopy k5) ];
       nextChain := 7 |}.
Proof.
  intros Hunset. pose proof Hunset as Hflag. unfold flag_set in Hflag.
  unfold overlap_schedule, overlap_trace, toolchainCopy, four_commands, call.
  unfold activate, registerCommand, trigger, detectionChain, setupReactNativeDebugger,
    setupReactNativeIntellisense, debuggerChain, promptChain, tsconfigChain,
    typingsChain.
  activation_sim Hunset.
  do 5 eexists. reflexivity.
Qed.

(** X8.  The two installations can be under way at once, and the
    limits of the probe and of the copy are reached: when the project
    is detected with the flag unset and the user accepts the prompt,
    there is a schedule on which [enableSalsa] and the typings chain
    each probe the library path, each find it absent, and each wait
    for a copy of the bundled toolchain into the same directory at
    the same time. *)
Theorem installations_can_overlap (w : World) :
  flag_set w = false ->
  let st := run overlap_schedule (call activate w) in
  trace st = overlap_trace (salsa_command (platform w)) /\
  copy_in_flight 5 st /\ copy_in_flight 6 st /\
  occurrences KProbe (trace st) = activation_limit KProbe /\
  occurrences KCopy (trace st) = activation_limit KCopy.
Proof.
  intros Hunset. cbv zeta.
  destruct (overlap_state w Hunset) as (k2 & k4 & k6 & k5 & w' & ->).
  split; [reflexivity | split; [| split; [| split; reflexivity]]].
  - exists k5. simpl. tauto.
  - exists k6. simpl. tauto.
Qed.

(** ** The lines of the stub *)

Lemma newlines_app (a b : string) : newlines (a +:+ b) = newlines a + newlines b.
Proof.
  induction a as [|x a IH]; [reflexivity |].
  change (newlines (String x (a +:+ b)) = newlines (String x a) + newlines b).
  simpl. rewrite IH. lia.
Qed.

Lemma json_escape_one_line (a : ascii) : newlines (json_escape a) = 0.
Proof.
  destruct a as [b0 b1 b2 b3 b4 b5 b6 b7].
  destruct b0, b1, b2, b3, b4, b5, b6, b7; vm_compute; reflexivity.
Qed.

Lemma JSON_stringify_one_line (s : string) : newlines (JSON_stringify s) = 0.
Proof.
  unfold JSON_stringify. rewrite !newlines_app.
  assert (H : newlines (json_escape_all s) = 0).
  { induction s as [|a s IH]; [reflexivity |].
    simpl. rewrite newlines_app, json_escape_one_line, IH. reflexivity. }
  rewrite H. reflexivity.
Qed.

(** X9.  The launcher path never breaks the lines of the stub:
    [JSON.stringify] escapes every line break in it, so the stub has
    its eight line breaks and those of the extension's name and
    version, whatever the path is. *)
Theorem stub_lines_independent_of_launcher :
  newlines debuggerEntryCode = 8 + newlines (name pkg) + newlines (version pkg).
Proof.
  unfold debuggerEntryCode. rewrite !newlines_app, JSON_stringify_one_line.
  simpl. lia.
Qed.

(** ** The directory manager *)

Lemma idle_nothing_provisioned tr : Forall idle_event tr -> nothing_provisioned tr.
Proof.
  intros H. eapply Forall_impl; [exact H |].
  intros [c s|c n|c op|c op o|c o]; simpl; auto.
Qed.

Lemma manager_snoc tr e :
  manager_does_not_wait tr ->
  (forall c, e = Did c NewReactDirManager -> nothing_provisioned tr) ->
  manager_does_not_wait (tr ++ [e]).
Proof.
  intros Htr He pre c post Heq.
  destruct post as [|x post _] using rev_ind.
  - apply app_inj_tail in Heq. destruct Heq as [-> Heq]. apply (He c Heq).
  - change (Did c NewReactDirManager :: post ++ [x])
      with ((Did c NewReactDirManager :: post) ++ [x]) in Heq.
    rewrite app_assoc in Heq. apply app_inj_tail in Heq. destruct Heq as [-> _].
    apply (Htr pre c post). reflexivity.
Qed.

Lemma manager_app new : forall tr,
  manager_does_not_wait tr -> Forall (event_ok no_manager) new ->
  manager_does_not_wait (tr ++ new).
Proof.
  induction new as [|e new IH]; intros tr Htr Hnew.
  - rewrite app_nil_r. exact Htr.
  - inversion Hnew as [|? ? He Hrest]; subst.
    change (e :: new) with ([e] ++ new). rewrite app_assoc. apply IH; [| exact Hrest].
    apply manager_snoc; [exact Htr |]. intros c ->. destruct He.
Qed.

Lemma idle_manager tr : Forall idle_event tr -> manager_does_not_wait tr.
Proof.
  intros H pre c post ->. apply Forall_app in H. destruct H as [_ H].
  inversion H as [|? ? Hbad _]; subst. discriminate Hbad.
Qed.

Lemma four_commands_no_manager :
  Forall (fun nc => task_all no_manager (snd nc)) four_commands.
Proof. repeat constructor. Qed.

Ltac keep_idle H :=
  repeat (apply Forall_app; split); first [exact H | repeat constructor].

(** The turn of the callback: what it starts has no directory manager
    in it, and the manager it creates comes before any settlement. *)
Lemma manager_turn w st v :
  pool st = pool (step (Complete 0 (Fulfilled v)) (call activate w)) ->
  registry st = four_commands -> Forall idle_event (trace st) ->
  after_callback (step (Turn 0) st).
Proof.
  intros Hpool Hreg Hidle. unfold step. rewrite Hpool.
  cbn [call exec activate registerCommand detectionChain then_ await bind
       boot pool emit enqueue fresh_chain add_command app nextChain
       lookup list_lookup step drop_entry take drop with_world].
  assert (Hprov : nothing_provisioned (trace st))
    by (apply idle_nothing_provisioned; exact Hidle).
  assert (Hman : manager_does_not_wait (trace st))
    by (apply idle_manager; exact Hidle).
  unfold setupReactNativeDebugger, setupReactNativeIntellisense, debuggerChain,
    promptChain, tsconfigChain, typingsChain.
  destruct (truthy v);
    cbn [exec bind try_ then_ catch_ done_ await getenv world
         enqueue emit fresh_chain drop_entry];
    try match goal with |- context [if ?b then _ else _] => destruct b end;
    cbn [exec bind try_ then_ catch_ done_ await getenv world
         enqueue emit fresh_chain drop_entry pool registry trace nextChain];
    (split; [split |]).
  all: try (simpl; rewrite Hreg; apply four_commands_no_manager).
  all: try (simpl; rewrite Hpool; simpl; repeat constructor;
            unfold enableSalsa, installTypescriptNext, installChain; crush_all; fail).
  all: simpl;
    repeat (apply manager_snoc;
            [| first [ intros ? Hx; discriminate Hx
                     | intros ? _; unfold nothing_provisioned;
                       repeat (apply Forall_app; split);
                       first [exact Hprov | repeat constructor] ]]);
    exact Hman.
Qed.

Lemma manager_step w ch st :
  before_callback w st \/ after_callback st ->
  before_callback w (step ch st) \/ after_callback (step ch st).
Proof.
  intros [(Hpool & Hreg & Hidle) | [Hq Hm]].
  - destruct ch as [i o|i|n v|n]; unfold step.
    + destruct Hpool as [Hpool | (v & Hpool)]; rewrite Hpool;
        (destruct i as [|i];
         [| left; split; [eauto | split; [exact Hreg | exact Hidle]]]).
      * cbn [call exec activate registerCommand detectionChain then_ await bind
             boot pool emit enqueue fresh_chain add_command app nextChain
             lookup list_lookup].
        destruct o as [v|e]; cbn [bind exec].
        -- left. split; [right; exists v | split; [exact Hreg |]].
           ++ simpl. rewrite Hpool. reflexivity.
           ++ simpl. keep_idle Hidle.
        -- right. split; [split |].
           ++ simpl. rewrite Hpool. constructor.
           ++ simpl. rewrite Hreg. apply four_commands_no_manager.
           ++ apply idle_manager. simpl. keep_idle Hidle.
      * left. split; [right; exists v; exact Hpool | split; [exact Hreg | exact Hidle]].
    + destruct Hpool as [Hpool | (v & Hpool)]; rewrite Hpool;
        (destruct i as [|i];
         [| left; split; [eauto | split; [exact Hreg | exact Hidle]]]).
      * left. split; [left; exact Hpool | split; [exact Hreg | exact Hidle]].
      * right. rewrite <- Hpool. exact (manager_turn w st v Hpool Hreg Hidle).
    + left. split; [exact Hpool | split; [exact Hreg | exact Hidle]].
    + rewrite Hreg. destruct (find_command n four_commands) as [cb|] eqn:Hf;
        [| left; split; [exact Hpool | split; [exact Hreg | exact Hidle]]].
      destruct (find_four_commands n cb Hf) as (m & ->).
      left. unfold trigger. simpl. split; [exact Hpool | split; [exact Hreg |]].
      keep_idle Hidle.
  - right. split; [apply step_all; exact Hq |].
    destruct (step_trace no_manager ch st Hq) as (new & -> & Hnew).
    apply manager_app; assumption.
Qed.

Lemma manager_run w sched : forall st,
  before_callback w st \/ after_callback st ->
  before_callback w (run sched st) \/ after_callback (run sched st).
Proof.
  induction sched as [|ch sched IH]; intros st Hst; [exact Hst |].
  rewrite run_cons. apply IH, manager_step, Hst.
Qed.

(** X10.  The directory manager does not wait for the provisioning: in
    every run of [activate], at the moment [new ReactDirManager()] is
    called no step of the debugger chain or of the intellisense chains
    has settled, so the manager is created and handed to the
    subscriptions whether or not these steps succeed later. *)
Theorem directory_manager_does_not_wait (w : World) (sched : list Choice) :
  manager_does_not_wait (trace (run sched (call activate w))).
Proof.
  destruct (manager_run w sched (call activate w)) as [(_ & _ & Hidle) | [_ Hm]].
  - left. split; [left; reflexivity | split; [reflexivity |]]. repeat constructor.
  - apply idle_manager, Hidle.
  - exact Hm.
Qed.

(** ** What an activation can call at all *)

Ltac listed := simpl; repeat first [left; reflexivity | right].

Lemma activate_source_calls : task_all source_calls activate.
Proof.
  program. unfold source_operations, typingsMirror, installProbe, toolchainCopy, salsaPrompt.
  repeat first
    [ exact I
    | reflexivity
    | progress intros
    | match goal with |- _ /\ _ => split end
    | match goal with |- In _ _ => solve [listed] end
    | cases_of_goal
    | progress cbn [task_all source_calls bind try_ then_ catch_ done_ await getenv js_or] ].
Qed.

(** X11.  Whatever happens in a run of [activate] is one of the calls
    the source names, with the arguments the source gives it: the only
    file written is the stub with the generated contents, the only
    setting written is the library path under the workspace, the only
    configuration edits are [allowJs(true)] and the exclusion of
    [node_modules], and a child process is only ever started with one
    of three fixed command lines, never with text that comes from the
    environment or from a collaborator's answer. *)
Theorem activation_calls_only_what_the_source_names (w : World) (sched : list Choice) :
  Forall (event_ok source_calls) (trace (run sched (call activate w))).
Proof. apply call_run_trace, activate_source_calls. Qed.

(** ** What an activation leaves in the workspace *)











End Extension.

(** ** Worked examples *)

Example JSON_stringify_windows_path :
  JSON_stringify "C:\ext\launcher" = dq +:+ "C:\\ext\\launcher" +:+ dq.
Proof. reflexivity. Qed.

Example debugger_write_failure :
  trace (run write_fails
           (call (setupReactNativeDebugger posix_join "/ext/out/debugger/launcher" sample_pkg "/proj")
                 sample_world)) =
  [ Began 1 (EnsureDirectory "/proj/.vscode");
    Returned 0 (Fulfilled VUndefined);
    Settled 1 (EnsureDirectory "/proj/.vscode") (Fulfilled VUndefined);
    Began 1 (EnsureFileWithContents "/proj/.vscode/launchReactNative.js"
               (debuggerEntryCode "/ext/out/debugger/launcher" sample_pkg));
    Settled 1 (EnsureFileWithContents "/proj/.vscode/launchReactNative.js"
                 (debuggerEntryCode "/ext/out/debugger/launcher" sample_pkg))
            (Rejected {| message := "EACCES: permission denied" |});
    Did 1 (ShowErrorMessage "EACCES: permission denied");
    Returned 1 (Fulfilled VUndefined) ].
Proof. vm_compute. reflexivity. Qed.

Example fresh_install_trace :
  trace (run fresh_install
           (call (installTypescriptNext posix_join posix_join "/ext/out/extension" "/proj")
                 sample_world)) =
  [ Began 0 (Exists "/proj/.vscode/typescript/lib");
    Settled 0 (Exists "/proj/.vscode/typescript/lib") (Fulfilled (VBool false));
    Began 0 (CopyRecursive "/ext/TypescriptNext" "/proj/.vscode");
    Settled 0 (CopyRecursive "/ext/TypescriptNext" "/proj/.vscode") (Fulfilled VUndefined);
    Began 0 (TypescriptTsdk "/proj/.vscode/typescript/lib");
    Settled 0 (TypescriptTsdk "/proj/.vscode/typescript/lib") (Fulfilled VUndefined);
    Returned 0 (Fulfilled VUndefined) ].
Proof. vm_compute. reflexivity. Qed.

Example intellisense_first_turn :
  trace (call (setupReactNativeIntellisense posix_join posix_join "/ext/out/extension" "/proj")
              sample_world) =
  [ Began 1 salsaPrompt;
    Began 2 (AllowJs true);
    Began 3 (CopyRecursive "/ext/ReactTypings" "/proj/.vscode/typings");
    Returned 0 (Fulfilled VUndefined) ].
Proof. vm_compute. reflexivity. Qed.

(** The workspace is not a React Native project: nothing is provisioned,
    and the commands are there all the same. *)
Example not_applicable_commands_work :
  trace (run [ Complete 0 (Fulfilled (VBool false)); Turn 0; Invoke "reactNative.runIos" ]
           (call (activate posix_join posix_join "/ext/out/extension"
                    "/ext/out/debugger/launcher" sample_pkg "/proj")
                 sample_world)) =
  [ Did 0 (NewReactNativeProjectHelper "/proj");
    Began 1 (IsReactNativeProject "/proj");
    Did 0 (NewCommandPaletteHandler "/proj");
    Registered 0 "reactNative.runAndroid";
    Did 0 (PushSubscription (CommandRegistration "reactNative.runAndroid"));
    Registered 0 "reactNative.runIos";
    Did 0 (PushSubscription (CommandRegistration "reactNative.runIos"));
    Registered 0 "reactNative.startPackager";
    Did 0 (PushSubscription (CommandRegistration "reactNative.startPackager"));
    Registered 0 "reactNative.stopPackager";
    Did 0 (PushSubscription (CommandRegistration "reactNative.stopPackager"));
    Returned 0 (Fulfilled VUndefined);
    Settled 1 (IsReactNativeProject "/proj") (Fulfilled (VBool false));
    Returned 1 (Fulfilled VUndefined);
    Did 2 (HandlerCall "/proj" runIos);
    Returned 2 (Fulfilled VUndefined) ].
Proof. vm_compute. reflexivity. Qed.

(** The configuration chain runs to its end in the sample workspace,
    whose exclusion list is [a]. *)
Example config_mutation_sample :
  tsconfig (world (run [ Complete 1 (Fulfilled VUndefined); Turn 2;
                         Complete 2 (Fulfilled VUndefined) ]
                     (call (setupReactNativeIntellisense posix_join posix_join
                              "/ext/out/extension" "/proj")
                           sample_world))) =
  {| allowJs := Some true; exclude := ["a"; "node_modules"]; otherFields := ∅ |}.
Proof. vm_compute. reflexivity. Qed.

(** On a Mac the setter is [launchctl]. *)
Example enableSalsa_on_mac :
  trace (call (enableSalsa posix_join posix_join "/ext/out/extension" "/proj") sample_world) =
  [ Did 0 (ChildProcessExec "launchctl setenv VSCODE_TSJS 1");
    Began 1 (Exists "/proj/.vscode/typescript/lib");
    Returned 0 (Fulfilled VUndefined) ].
Proof. vm_compute. reflexivity. Qed.

(** ** Instances of the theorems that have a hypothesis *)

Lemma no_prompt_when_flag_set_witness :
  flag_set flagged_world = true /\
  ~ In (Began 1 salsaPrompt)
       (trace (run fresh_install
                 (call (setupReactNativeIntellisense posix_join posix_join
                          "/ext/out/extension" "/proj")
                       flagged_world))).
Proof.
  split; [vm_compute; reflexivity |].
  apply (no_prompt_when_flag_set posix_join posix_join "/ext/out/extension" "/proj"
           flagged_world fresh_install 1).
  vm_compute. reflexivity.
Defined.

Lemma enableSalsa_noop_when_flag_set_witness :
  let st := run late_accept
              (call (setupReactNativeIntellisense posix_join posix_join
                       "/ext/out/extension" "/proj")
                    sample_world) in
  flag_set (world st) = true /\
  exec 1 (enableSalsa posix_join posix_join "/ext/out/extension" "/proj") st =
  emit (Returned 1 (Fulfilled VUndefined)) st.
Proof.
  split; [vm_compute; reflexivity |].
  apply (enableSalsa_noop_when_flag_set posix_join posix_join "/ext/out/extension" "/proj").
  vm_compute. reflexivity.
Defined.

Lemma installTypescriptNext_ignores_home_witness :
  differ_only_in_home alice_world bob_world /\
  same_but_env
    (run fresh_install
       (call (installTypescriptNext posix_join posix_join "/ext/out/extension" "/proj")
             alice_world))
    (run fresh_install
       (call (installTypescriptNext posix_join posix_join "/ext/out/extension" "/proj")
             bob_world)).
Proof.
  assert (H : differ_only_in_home alice_world bob_world).
  { split; [| repeat split].
    intros n Hhome Hprofile. simpl.
    rewrite lookup_singleton_ne by congruence.
    rewrite lookup_insert_ne by congruence.
    rewrite lookup_singleton_ne by congruence. reflexivity. }
  split; [exact H |].
  apply (installTypescriptNext_ignores_home posix_join posix_join "/ext/out/extension" "/proj"
           alice_world bob_world fresh_install H).
Defined.

(** ** The order the specification states for Chain B does not hold *)

(** ** Activation as a whole: worked examples *)

(** The user dismisses the prompt: no child process, no installation on
    the prompt's chain, no notice. *)
Example dismissed_prompt_starts_nothing :
  trace (run [ Complete 0 (Fulfilled (VBool true)); Turn 0;
               Complete 1 (Fulfilled VUndefined); Turn 3 ]
           (call (activate posix_join posix_join "/ext/out/extension"
                    "/ext/out/debugger/launcher" sample_pkg "/proj")
                 sample_world)) =
  [ Did 0 (NewReactNativeProjectHelper "/proj");
    Began 1 (IsReactNativeProject "/proj");
    Did 0 (NewCommandPaletteHandler "/proj");
    Registered 0 "reactNative.runAndroid";
    Did 0 (PushSubscription (CommandRegistration "reactNative.runAndroid"));
    Registered 0 "reactNative.runIos";
    Did 0 (PushSubscription (CommandRegistration "reactNative.runIos"));
    Registered 0 "reactNative.startPackager";
    Did 0 (PushSubscription (CommandRegistration "reactNative.startPackager"));
    Registered 0 "reactNative.stopPackager";
    Did 0 (PushSubscription (CommandRegistration "reactNative.stopPackager"));
    Returned 0 (Fulfilled VUndefined);
    Settled 1 (IsReactNativeProject "/proj") (Fulfilled (VBool true));
    Began 2 (EnsureDirectory "/proj/.vscode");
    Began 3 salsaPrompt;
    Began 4 (AllowJs true);
    Began 5 (CopyRecursive "/ext/ReactTypings" "/proj/.vscode/typings");
    Did 1 NewReactDirManager;
    Did 1 (PushSubscription ReactDirManagerInstance);
    Returned 1 (Fulfilled VUndefined);
    Settled 3 salsaPrompt (Fulfilled VUndefined);
    Returned 3 (Fulfilled VUndefined) ].
Proof. vm_compute. reflexivity. Qed.

(** The restart notice on a Mac, after the library was found in place. *)
Example enableSalsa_to_the_notice :
  trace (run [ Complete 0 (Fulfilled (VBool true)); Turn 0; Turn 0;
               Complete 0 (Fulfilled VUndefined); Turn 0 ]
           (call (enableSalsa posix_join posix_join "/ext/out/extension" "/proj")
                 sample_world)) =
  [ Did 0 (ChildProcessExec "launchctl setenv VSCODE_TSJS 1");
    Began 1 (Exists "/proj/.vscode/typescript/lib");
    Returned 0 (Fulfilled VUndefined);
    Settled 1 (Exists "/proj/.vscode/typescript/lib") (Fulfilled (VBool true));
    Began 1 (TypescriptTsdk "/proj/.vscode/typescript/lib");
    Settled 1 (TypescriptTsdk "/proj/.vscode/typescript/lib") (Fulfilled VUndefined);
    Did 1 (ShowInformationNotice
             "Salsa intellisense for VS Code was turned on. Restart to enable it.");
    Returned 1 (Fulfilled VUndefined) ].
Proof. vm_compute. reflexivity. Qed.

(** The configuration chain taken to the end, on a document whose
    exclusion list is [a]. *)
Example config_mutation_run :
  let st := run [ Complete 1 (Fulfilled VUndefined); Turn 2;
                  Complete 2 (Fulfilled VUndefined) ]
              (call (setupReactNativeIntellisense posix_join posix_join
                       "/ext/out/extension" "/proj")
                    sample_world) in
  allowJs (tsconfig (world st)) = Some true /\
  exclude (tsconfig (world st)) = ["a"; "node_modules"].
Proof. vm_compute. split; reflexivity. Qed.

(** ** Instances of the further theorems that have a hypothesis *)

Lemma activate_idle_when_not_applicable_witness :
  let st := run [ Complete 0 (Fulfilled (VBool false)); Turn 0;
                  Invoke "reactNative.runIos" ]
              (call (activate posix_join posix_join "/ext/out/extension"
                       "/ext/out/debugger/launcher" sample_pkg "/proj")
                    sample_world) in
  Forall idle_event (trace st) /\ state_all quiet st.
Proof.
  apply (activate_idle_when_not_applicable posix_join posix_join "/ext/out/extension"
           "/ext/out/debugger/launcher" sample_pkg "/proj" sample_world
           [ Complete 0 (Fulfilled (VBool false)); Turn 0; Invoke "reactNative.runIos" ]
           1 "/proj" (Fulfilled (VBool false))).
  - vm_compute. do 12 right. left. reflexivity.
  - reflexivity.
Defined.

Lemma enableSalsa_course_witness :
  let st := run [ Complete 0 (Fulfilled (VBool false)); Turn 0;
                  Complete 0 (Rejected {| message := "ENOSPC: no space left on device" |}) ]
              (call (enableSalsa posix_join posix_join "/ext/out/extension" "/proj")
                    sample_world) in
  exists probe copy record,
    trace st `prefix_of`
      salsa_script posix_join posix_join "/ext/out/extension" "/proj"
        (salsa_command (platform sample_world)) probe copy record /\
    (pool st = [] ->
     trace st =
     salsa_script posix_join posix_join "/ext/out/extension" "/proj"
       (salsa_command (platform sample_world)) probe copy record) /\
    (exists rest, pool (run rest st) = []).
Proof.
  apply (enableSalsa_course posix_join posix_join "/ext/out/extension" "/proj" sample_world).
  vm_compute. reflexivity.
Defined.

Lemma installations_can_overlap_witness :
  let st := run overlap_schedule
              (call (activate posix_join posix_join "/ext/out/extension"
                       "/ext/out/debugger/launcher" sample_pkg "/proj")
                    sample_world) in
  trace st =
  overlap_trace posix_join posix_join "/ext/out/extension" "/proj"
    (salsa_command (platform sample_world)) /\
  copy_in_flight posix_join "/ext/out/extension" "/proj" 5 st /\
  copy_in_flight posix_join "/ext/out/extension" "/proj" 6 st /\
  occurrences KProbe (trace st) = activation_limit KProbe /\
  occurrences KCopy (trace st) = activation_limit KCopy.
Proof.
  apply (installations_can_overlap posix_join posix_join "/ext/out/extension"
           "/ext/out/debugger/launcher" sample_pkg "/proj" sample_world).
  vm_compute. reflexivity.
Defined.
